(** * naba: the request/response pipeline and the output writer

    A shallow embedding of [internal/gemini/prompt.go], [internal/gemini/types.go],
    [internal/output/writer.go] and of the write loop of [internal/cli/edit.go],
    followed by the properties of the specification that concern them.

    Conventions.
    - A Go [string] and a Go [[]byte] are both byte sequences: a [string] here
      is a Stdlib [string] (a list of 8-bit [ascii]), a [[]byte] is a
      [list byte].
    - A Go [int] is a [Z] in the range of [int64]; the one addition the code
      performs ([index+1]) is written with its wrap-around.
    - A Go function returning [(T, error)] returns a pair [T * option error];
      [None] is [nil].
    - The functions of Go's standard library that the code calls and that are
      not simple enough to be written out (encoding/json, encoding/base64,
      net/http, the Unicode case tables, the file system) are operations of
      the classes [Lib] and [OS]: every theorem holds for all of them. *)

From Stdlib Require Import ZArith String Ascii List Lia DecimalString DecimalZ.
From Stdlib.Strings Require Import Byte.
From stdpp Require Import base gmap strings list.

Local Open Scope Z_scope.
Local Open Scope string_scope.

(* ===================================================================== *)
(** * Errors *)
(* ===================================================================== *)

(** [prompt.go]: const block. *)
Definition ExitGeneral : Z := 1.
Definition ExitUsage : Z := 2.
Definition ExitAuth : Z := 3.
Definition ExitRateLimit : Z := 4.
Definition ExitAPI : Z := 5.
Definition ExitFileIO : Z := 10.

(** [type APIError struct]. *)
Record APIError := mkAPIError {
  APIError_StatusCode : Z;
  APIError_Message : string;
  APIError_ExitCode : Z
}.

(** The dynamic types an [error] value has in this program: a [*APIError], the
    [*fmt.wrapError] that [fmt.Errorf] builds for a format with [%w], and the
    errors of the standard library, of which the code only ever asks whether
    they say that a file does not exist. *)
Inductive error :=
| ApiErr (e : APIError)
| WrapErr (msg : string) (cause : error)
| NotExistErr (msg : string)
| LibErr (msg : string).

(** [func (e *APIError) Error() string], and [Error()] of the other types. *)
Definition Error (err : error) : string :=
  match err with
  | ApiErr e => APIError_Message e
  | WrapErr msg _ => msg
  | NotExistErr msg => msg
  | LibErr msg => msg
  end.

(** [fmt.Errorf(prefix + "%w", err)]. *)
Definition Errorf_w (prefix : string) (err : error) : error :=
  WrapErr (prefix +:+ Error err) err.

(** [os.IsNotExist(err)]: false on [nil] and on every error that is not a
    file-does-not-exist error of the operating system; it does not unwrap. *)
Definition os_IsNotExist (err : option error) : bool :=
  match err with
  | Some (NotExistErr _) => true
  | _ => false
  end.

(* ===================================================================== *)
(** * Strings and integers of the Go runtime *)
(* ===================================================================== *)

Definition dot : ascii := Ascii.ascii_of_nat 46.
Definition slash : ascii := Ascii.ascii_of_nat 47.

(** The line feed of a Go string literal. *)
Definition nl : string := String (Ascii.ascii_of_nat 10) EmptyString.

(** [%d] of [fmt.Sprintf]: decimal digits, a leading minus sign for a negative
    number, ["0"] for zero. *)
Definition itoa (n : Z) : string := NilZero.string_of_int (Z.to_int n).

(** Two's complement wrap-around of a 64-bit [int]. *)
Definition wrap64 (z : Z) : Z := (z + 2 ^ 63) mod 2 ^ 64 - 2 ^ 63.
Definition int_add (a b : Z) : Z := wrap64 (a + b).

(** [filepath.Ext] (with [/] as the path separator): the loop runs from the
    last byte backwards, stops at a path separator and returns the suffix
    that starts at the first dot it meets. [rev_path] is the part of the path not yet visited, reversed;
    [acc] is the suffix already passed. *)
Fixpoint ext_scan (rev_path : list ascii) (acc : string) : string :=
  match rev_path with
  | [] => ""
  | c :: rest =>
      if Ascii.eqb c slash then ""
      else if Ascii.eqb c dot then String c acc
      else ext_scan rest (String c acc)
  end.

Definition filepath_Ext (path : string) : string :=
  ext_scan (rev (list_ascii_of_string path)) "".

(** [strings.HasSuffix] and [strings.TrimSuffix]. *)
Definition strings_HasSuffix (s suffix : string) : bool :=
  (String.length suffix <=? String.length s)%nat &&
  String.eqb (substring (String.length s - String.length suffix)
                        (String.length suffix) s) suffix.

Definition strings_TrimSuffix (s suffix : string) : string :=
  if strings_HasSuffix s suffix
  then substring 0 (String.length s - String.length suffix) s
  else s.

(** The ASCII fast path of [strings.ToLower]. *)
Definition is_upper (c : ascii) : bool :=
  (65 <=? nat_of_ascii c)%nat && (nat_of_ascii c <=? 90)%nat.

Definition lower_ascii (c : ascii) : ascii :=
  if is_upper c then ascii_of_nat (nat_of_ascii c + 32) else c.

Fixpoint map_string (f : ascii → ascii) (s : string) : string :=
  match s with
  | EmptyString => EmptyString
  | String c rest => String (f c) (map_string f rest)
  end.

Fixpoint isASCII (s : string) : bool :=
  match s with
  | EmptyString => true
  | String c rest => (nat_of_ascii c <? 128)%nat && isASCII rest
  end.

(** [strings.Join]. *)
Fixpoint strings_Join (elems : list string) (sep : string) : string :=
  match elems with
  | [] => ""
  | [e] => e
  | e :: rest => e +:+ sep +:+ strings_Join rest sep
  end.

(* ===================================================================== *)
(** * [internal/gemini/types.go] *)
(* ===================================================================== *)

Record InlineData := mkInlineData {
  InlineData_MIMEType : string;
  InlineData_Data : string
}.

(** [InlineData *InlineData]: [None] is the nil pointer. *)
Record Part := mkPart {
  Part_Text : string;
  Part_InlineData : option InlineData
}.

Record Content := mkContent {
  Content_Role : string;
  Content_Parts : list Part
}.

Record GenerationConfig := mkGenerationConfig {
  ResponseModalities : list string
}.

Record GenerateRequest := mkGenerateRequest {
  Contents : list Content;
  GenerationConfig_ : GenerationConfig
}.

Record SafetyRating := mkSafetyRating {
  SafetyRating_Category : string;
  SafetyRating_Probability : string
}.

Record Candidate := mkCandidate {
  Candidate_Content : option Content;
  Candidate_FinishReason : string;
  Candidate_SafetyRatings : list SafetyRating
}.

Record PromptFeedback := mkPromptFeedback {
  BlockReason : string;
  PromptFeedback_SafetyRatings : list SafetyRating
}.

Record GenerateResponse := mkGenerateResponse {
  Candidates : list Candidate;
  PromptFeedback_ : option PromptFeedback
}.

Record ImageResult := mkImageResult {
  ImageResult_Data : list byte;
  ImageResult_MIMEType : string
}.

(** [type ErrorResponse struct { Error struct {...} }], flattened. *)
Record ErrorResponse := mkErrorResponse {
  ErrorResponse_Code : Z;
  ErrorResponse_Message : string;
  ErrorResponse_Status : string
}.

(** [type Client struct]; the [*http.Client] is the transport of [Lib]. *)
Record Client := mkClient {
  APIKey : string;
  Model : string;
  BaseURL : string
}.

(** What the code sees of [*http.Request] and [*http.Response]. [Resp_Body] is
    what [io.ReadAll(resp.Body)] yields. *)
Record HTTPRequest := mkHTTPRequest {
  Req_Method : string;
  Req_URL : string;
  Req_Header : list (string * string);
  Req_Body : list byte
}.

Record HTTPResponse := mkHTTPResponse {
  Resp_StatusCode : Z;
  Resp_Body : list byte * option error
}.

(** [httpReq.Header.Set(key, value)]: replaces the values of [key]. *)
Definition Header_Set (r : HTTPRequest) (key value : string) : HTTPRequest :=
  {| Req_Method := Req_Method r;
     Req_URL := Req_URL r;
     Req_Header :=
       (key, value) :: filter (λ kv, negb (String.eqb (fst kv) key)) (Req_Header r);
     Req_Body := Req_Body r |}.

(* ===================================================================== *)
(** * The standard library and the operating system *)
(* ===================================================================== *)

(** The pure functions of the standard library and the network.
    [json_Unmarshal_*] give what [json.Unmarshal] leaves in the zero-valued
    destination, and its error. [unicode_ToLower] is what [strings.ToLower]
    does to a string that has a byte above 127. [strconv_Quote] is the [%q]
    verb. *)
Class Lib := {
  json_Marshal : GenerateRequest → list byte * option error;
  json_Unmarshal_GenerateResponse : list byte → GenerateResponse * option error;
  json_Unmarshal_ErrorResponse : list byte → ErrorResponse * option error;
  base64_DecodeString : string → list byte * option error;
  base64_EncodeToString : list byte → string;
  unicode_ToLower : string → string;
  strconv_Quote : string → string;
  http_NewRequest : string → string → list byte → HTTPRequest * option error;
  http_Do : HTTPRequest → HTTPResponse * option error
}.

(** The file system, the working directory and the clock. [fs] is the state
    of the file system and the clock; an operation that can change it returns
    the new state, also when it fails. [os_Stat] gives the error of [os.Stat]
    (the [FileInfo] is never used). [filepath_Abs] depends on the working
    directory of the process, which the program never changes.
    [time_Now_Format] is [time.Now().Format("20060102-150405")]. *)
Class OS := {
  fs : Type;
  os_Stat : fs → string → option error;
  os_MkdirAll : fs → string → fs * option error;
  os_WriteFile : fs → string → list byte → fs * option error;
  os_ReadFile : fs → string → list byte * option error;
  filepath_Abs : string → string * option error;
  filepath_Dir : string → string;
  time_Now_Format : fs → string
}.

(* ===================================================================== *)
(** * [internal/gemini/prompt.go] *)
(* ===================================================================== *)

Section Gemini.
Context `{Lib} `{OS}.

(** [strings.ToLower]: a string of ASCII bytes is lowered byte by byte; any
    other string goes through the Unicode tables. *)
Definition strings_ToLower (s : string) : string :=
  if isASCII s then map_string lower_ascii s else unicode_ToLower s.

Definition detectMIMEType (path : string) : string :=
  let ext := strings_ToLower (filepath_Ext path) in
  if String.eqb ext ".png" then "image/png"
  else if String.eqb ext ".jpg" || String.eqb ext ".jpeg" then "image/jpeg"
  else if String.eqb ext ".gif" then "image/gif"
  else if String.eqb ext ".webp" then "image/webp"
  else if String.eqb ext ".bmp" then "image/bmp"
  else "image/png".

(** [readImageFile]: the encoded data, the MIME type, the error. *)
Definition readImageFile (s : fs) (path : string) : string * string * option error :=
  match os_ReadFile s path with
  | (_, Some err) =>
      ("", "", Some (ApiErr {|
         APIError_StatusCode := 0;
         APIError_Message :=
           "read image file " +:+ strconv_Quote path +:+ ": " +:+ Error err;
         APIError_ExitCode := ExitFileIO |}))
  | (data, None) =>
      let mimeType := detectMIMEType path in
      let encoded := base64_EncodeToString data in
      (encoded, mimeType, None)
  end.

(** [parseAPIError]: the message of the envelope or the fallback, then the
    [switch] on the status, which sets the exit code and rewrites the
    message. *)
Definition parseAPIError (statusCode : Z) (body : list byte) : APIError :=
  let errResp := fst (json_Unmarshal_ErrorResponse body) in
  let msg := ErrorResponse_Message errResp in
  let msg :=
    if String.eqb msg "" then "API error (HTTP " +:+ itoa statusCode +:+ ")" else msg in
  let '(exitCode, msg) :=
    if Z.eqb statusCode 401 || Z.eqb statusCode 403 then
      (ExitAuth,
       "authentication failed: " +:+ msg +:+ nl +:+ nl
         +:+ "Set GEMINI_API_KEY or run: naba config set api_key <your-key>")
    else if Z.eqb statusCode 429 then
      (ExitRateLimit,
       "rate limit exceeded: " +:+ msg +:+ nl +:+ nl +:+ "Wait a moment and try again.")
    else if Z.leb 500 statusCode then
      (ExitAPI,
       "Gemini server error: " +:+ msg +:+ nl +:+ nl
         +:+ "This is a temporary issue. Try again shortly.")
    else (ExitAPI, msg) in
  {| APIError_StatusCode := statusCode;
     APIError_Message := msg;
     APIError_ExitCode := exitCode |}.

(** The two nested loops of [extractImages]. A loop either runs to its end
    with the images appended so far, or leaves the function through the
    [return nil, err] of a failed decode. *)
Inductive loop_result :=
| Continue (images : list ImageResult)
| Return (err : error).

Fixpoint extractParts (parts : list Part) (images : list ImageResult) : loop_result :=
  match parts with
  | [] => Continue images
  | part :: rest =>
      match Part_InlineData part with
      | None => extractParts rest images
      | Some inline =>
          match base64_DecodeString (InlineData_Data inline) with
          | (_, Some err) => Return (Errorf_w "decode image data: " err)
          | (data, None) =>
              extractParts rest
                (images ++ [ {| ImageResult_Data := data;
                                ImageResult_MIMEType := InlineData_MIMEType inline |} ])
          end
      end
  end.

Fixpoint extractCandidates (candidates : list Candidate) (images : list ImageResult)
  : loop_result :=
  match candidates with
  | [] => Continue images
  | candidate :: rest =>
      match Candidate_Content candidate with
      | None => extractCandidates rest images
      | Some content =>
          match extractParts (Content_Parts content) images with
          | Return err => Return err
          | Continue images => extractCandidates rest images
          end
      end
  end.

Definition extractImages (resp : GenerateResponse) : list ImageResult * option error :=
  match extractCandidates (Candidates resp) [] with
  | Return err => ([], Some err)
  | Continue images =>
      if Nat.eqb (length images) 0 then
        ([], Some (ApiErr {| APIError_StatusCode := 0;
                             APIError_Message := "no images in response";
                             APIError_ExitCode := ExitAPI |}))
      else (images, None)
  end.

Definition doRequest (c : Client) (req : GenerateRequest) : list ImageResult * option error :=
  match json_Marshal req with
  | (_, Some err) => ([], Some (Errorf_w "marshal request: " err))
  | (body, None) =>
  let url := BaseURL c +:+ "/models/" +:+ Model c +:+ ":generateContent" in
  match http_NewRequest "POST" url body with
  | (_, Some err) => ([], Some (Errorf_w "create request: " err))
  | (httpReq, None) =>
  let httpReq := Header_Set httpReq "Content-Type" "application/json" in
  let httpReq := Header_Set httpReq "x-goog-api-key" (APIKey c) in
  match http_Do httpReq with
  | (_, Some err) => ([], Some (Errorf_w "api request failed: " err))
  | (resp, None) =>
  match Resp_Body resp with
  | (_, Some err) => ([], Some (Errorf_w "read response: " err))
  | (respBody, None) =>
  if negb (Z.eqb (Resp_StatusCode resp) 200) then
    ([], Some (ApiErr (parseAPIError (Resp_StatusCode resp) respBody)))
  else
  match json_Unmarshal_GenerateResponse respBody with
  | (_, Some err) => ([], Some (Errorf_w "parse response: " err))
  | (genResp, None) =>
  match PromptFeedback_ genResp with
  | Some feedback =>
      if negb (String.eqb (BlockReason feedback) "") then
        ([], Some (ApiErr {| APIError_StatusCode := 0;
                             APIError_Message := "prompt blocked: " +:+ BlockReason feedback;
                             APIError_ExitCode := ExitAPI |}))
      else extractImages genResp
  | None => extractImages genResp
  end end end end end end.

(** The request literal of [Generate]. *)
Definition Generate_request (prompt : string) : GenerateRequest :=
  {| Contents :=
       [ {| Content_Role := "user";
            Content_Parts := [ {| Part_Text := prompt; Part_InlineData := None |} ] |} ];
     GenerationConfig_ := {| ResponseModalities := ["TEXT"; "IMAGE"] |} |}.


(** The request literal of [GenerateWithImage]. *)
Definition GenerateWithImage_request (prompt imageData mimeType : string) : GenerateRequest :=
  {| Contents :=
       [ {| Content_Role := "user";
            Content_Parts :=
              [ {| Part_Text := prompt; Part_InlineData := None |};
                {| Part_Text := "";
                   Part_InlineData :=
                     Some {| InlineData_MIMEType := mimeType;
                             InlineData_Data := imageData |} |} ] |} ];
     GenerationConfig_ := {| ResponseModalities := ["TEXT"; "IMAGE"] |} |}.

Definition GenerateWithImage (c : Client) (s : fs) (prompt imagePath : string)
  : list ImageResult * option error :=
  match readImageFile s imagePath with
  | (_, _, Some err) => ([], Some err)
  | (imageData, mimeType, None) =>
      doRequest c (GenerateWithImage_request prompt imageData mimeType)
  end.

End Gemini.

(* ===================================================================== *)
(** * [internal/output/writer.go] *)
(* ===================================================================== *)

Section Output.
Context `{OS}.

Definition mimeTypeToExt (mimeType : string) : string :=
  if String.eqb mimeType "image/png" then ".png"
  else if String.eqb mimeType "image/jpeg" then ".jpg"
  else if String.eqb mimeType "image/gif" then ".gif"
  else if String.eqb mimeType "image/webp" then ".webp"
  else ".png".

Definition generateFilename (s : fs) (command mimeType : string) (index : Z) : string :=
  let ext := mimeTypeToExt mimeType in
  let ts := time_Now_Format s in
  if Z.ltb 0 index then
    "naba-" +:+ command +:+ "-" +:+ ts +:+ "-" +:+ itoa (int_add index 1) +:+ ext
  else "naba-" +:+ command +:+ "-" +:+ ts +:+ ext.

(** [fmt.Sprintf("%s-%d%s", base, i, ext)], used by [dedup] and [WriteImage]. *)
Definition suffixed (base : string) (i : Z) (ext : string) : string :=
  base +:+ "-" +:+ itoa i +:+ ext.

(** The loop [for i := 1; i < 1000; i++] of [dedup], from its current [i] with
    [n] iterations left; [dedup] enters it with [i = 1] and [n = 999]. *)
Fixpoint dedup_loop (s : fs) (path base ext : string) (i : Z) (n : nat) : string :=
  match n with
  | O => path
  | S n' =>
      let candidate := suffixed base i ext in
      if os_IsNotExist (os_Stat s candidate) then candidate
      else dedup_loop s path base ext (i + 1) n'
  end.

Definition dedup (s : fs) (path : string) : string :=
  if os_IsNotExist (os_Stat s path) then path
  else
    let ext := filepath_Ext path in
    let base := strings_TrimSuffix path ext in
    dedup_loop s path base ext 1 999.

(** The first block of [WriteImage]: the path before directory creation and
    dedup. *)
Definition indexedPath (s : fs) (mimeType outputPath command : string) (index : Z)
  : string :=
  if String.eqb outputPath "" then generateFilename s command mimeType index
  else if Z.ltb 0 index then
    let ext := filepath_Ext outputPath in
    let base := strings_TrimSuffix outputPath ext in
    suffixed base (int_add index 1) ext
  else outputPath.

(** The block [// Ensure directory exists]: the error is that of
    [os.MkdirAll]. *)
Definition ensureDir (s : fs) (outputPath : string) : fs * option error :=
  let dir := filepath_Dir outputPath in
  if negb (String.eqb dir ".") && negb (String.eqb dir "")
  then os_MkdirAll s dir
  else (s, None).

(** [WriteImage]: the state of the file system afterwards, the path and the
    error. *)
Definition WriteImage (s : fs) (data : list byte) (mimeType outputPath command : string)
    (index : Z) : fs * (string * option error) :=
  let outputPath := indexedPath s mimeType outputPath command index in
  match ensureDir s outputPath with
  | (s, Some err) => (s, ("", Some (Errorf_w "create output directory: " err)))
  | (s, None) =>
      let outputPath := dedup s outputPath in
      match os_WriteFile s outputPath data with
      | (s, Some err) => (s, ("", Some (Errorf_w "write image: " err)))
      | (s, None) =>
          match filepath_Abs outputPath with
          | (_, Some _) => (s, (outputPath, None))
          | (absPath, None) => (s, (absPath, None))
          end
      end
  end.

End Output.

(* ===================================================================== *)
(** * [internal/cli] *)
(* ===================================================================== *)

Section Cli.
Context `{OS}.

(** [type exitCodeError struct] and [exitError]. *)
Record exitCodeError := exitError {
  code : Z;
  message : string
}.

(** [handleAPIError]: a type assertion, so only an error that is itself a
    [*APIError] keeps its exit code. *)
Definition handleAPIError (err : error) : exitCodeError :=
  match err with
  | ApiErr apiErr => exitError (APIError_ExitCode apiErr) (APIError_Message apiErr)
  | _ => exitError ExitGeneral (Error err)
  end.

(** The loop of [runEdit] over the images of one response,
    [for i, img := range images { path, err := output.WriteImage(img.Data,
    img.MIMEType, flagOutput, "edit", i) ... }], from index [i] on: the paths
    written, or the exit error of the first write that fails. *)
Fixpoint writeImages (s : fs) (images : list ImageResult) (flagOutput command : string)
    (i : Z) : fs * (list string * option exitCodeError) :=
  match images with
  | [] => (s, ([], None))
  | img :: rest =>
      match WriteImage s (ImageResult_Data img) (ImageResult_MIMEType img)
                       flagOutput command i with
      | (s, (_, Some err)) => (s, ([], Some (exitError ExitFileIO (Error err))))
      | (s, (path, None)) =>
          match writeImages s rest flagOutput command (i + 1) with
          | (s, (_, Some err)) => (s, ([], Some err))
          | (s, (paths, None)) => (s, (path :: paths, None))
          end
      end
  end.

End Cli.

(* ===================================================================== *)
(** * [internal/output/writer.go]: [ExtForFormat] *)
(* ===================================================================== *)

Section Formats.
Context `{Lib}.

Definition ExtForFormat (format : string) : string :=
  let lowered := strings_ToLower format in
  if String.eqb lowered "jpeg" || String.eqb lowered "jpg" then ".jpg"
  else if String.eqb lowered "png" then ".png"
  else ".png".

End Formats.

(* ===================================================================== *)
(** * [internal/config] *)
(* ===================================================================== *)

(** The names of the directory and of its environment variable are those of
    the source file of the package. *)

(** [type Config struct]. *)
Record Config := mkConfig {
  Config_APIKey : string;
  Config_Model : string;
  Config_DefaultOutputDir : string
}.

(** The zero value [&Config{}]. *)
Definition zeroConfig : Config :=
  {| Config_APIKey := ""; Config_Model := ""; Config_DefaultOutputDir := "" |}.

(** The environment of the process and the YAML codec. [yaml_Unmarshal] gives
    what [yaml.Unmarshal] leaves in the zero-valued [Config], and its
    error. *)
Class Env := {
  os_Getenv : string → string;
  os_UserHomeDir : string * option error;
  filepath_Join : list string → string;
  yaml_Marshal : Config → list byte * option error;
  yaml_Unmarshal : list byte → Config * option error
}.

Definition configFileName : string := "config.yaml".
Definition EnvAPIKey : string := "GEMINI_API_KEY".

(** [func (c *Config) Get(key string) string]. *)
Definition Config_Get (c : Config) (key : string) : string :=
  if String.eqb key "api_key" then Config_APIKey c
  else if String.eqb key "model" then Config_Model c
  else if String.eqb key "default_output_dir" then Config_DefaultOutputDir c
  else "".

(** [func (c *Config) Set(key, value string) bool]: the config afterwards,
    and the result. *)
Definition Config_Set (c : Config) (key value : string) : Config * bool :=
  if String.eqb key "api_key" then
    ({| Config_APIKey := value; Config_Model := Config_Model c;
        Config_DefaultOutputDir := Config_DefaultOutputDir c |}, true)
  else if String.eqb key "model" then
    ({| Config_APIKey := Config_APIKey c; Config_Model := value;
        Config_DefaultOutputDir := Config_DefaultOutputDir c |}, true)
  else if String.eqb key "default_output_dir" then
    ({| Config_APIKey := Config_APIKey c; Config_Model := Config_Model c;
        Config_DefaultOutputDir := value |}, true)
  else (c, false).

Definition ValidKeys : list string := ["api_key"; "model"; "default_output_dir"].

Section ConfigFiles.
Context `{OS} `{Env}.

Definition ConfigDir : string :=
  let dir := os_Getenv "NBA_CONFIG_DIR" in
  if negb (String.eqb dir "") then dir
  else
    let home := fst os_UserHomeDir in
    filepath_Join [home; ".config"; "nba"].

Definition ConfigPath : string := filepath_Join [ConfigDir; configFileName].

(** [Load] returns either a config and no error, or the nil pointer and an
    error: [inl cfg] is [(cfg, nil)], [inr err] is [(nil, err)]. *)
Definition Load (s : fs) : Config + error :=
  match os_ReadFile s ConfigPath with
  | (_, Some err) =>
      if os_IsNotExist (Some err) then inl zeroConfig
      else inr err
  | (data, None) =>
      match yaml_Unmarshal data with
      | (_, Some err) => inr err
      | (cfg, None) => inl cfg
      end
  end.

(** [Save]: the state of the file system afterwards, and the error. *)
Definition Save (s : fs) (cfg : Config) : fs * option error :=
  let dir := ConfigDir in
  match os_MkdirAll s dir with
  | (s, Some err) => (s, Some err)
  | (s, None) =>
      match yaml_Marshal cfg with
      | (_, Some err) => (s, Some err)
      | (data, None) => os_WriteFile s ConfigPath data
      end
  end.

(** [ResolveAPIKey]. *)
Definition ResolveAPIKey (s : fs) : string :=
  let key := os_Getenv EnvAPIKey in
  if negb (String.eqb key "") then key
  else
    match Load s with
    | inr _ => ""
    | inl cfg => Config_APIKey cfg
    end.

End ConfigFiles.

(* ===================================================================== *)
(** * [internal/cli/config.go] *)
(* ===================================================================== *)

Section ConfigCommands.
Context `{Lib} `{OS} `{Env}.

(** The [RunE] of [configGetCmd]: the lines printed on the standard output,
    and the error. *)
Definition configGet (s : fs) (key : string) : list string * option exitCodeError :=
  match Load s with
  | inr err => ([], Some (exitError ExitGeneral ("load config: " +:+ Error err)))
  | inl cfg =>
      let val := Config_Get cfg key in
      if String.eqb val "" then
        ([], Some (exitError ExitGeneral
                     ("key " +:+ strconv_Quote key +:+ " is not set" +:+ nl +:+ nl
                        +:+ "Valid keys: " +:+ strings_Join ValidKeys ", ")))
      else ([val], None)
  end.

(** The [RunE] of [configSetCmd]: the state of the file system afterwards,
    the lines printed on the standard output, and the error. *)
Definition configSet (s : fs) (flagQuiet : bool) (key value : string)
  : fs * (list string * option exitCodeError) :=
  match Load s with
  | inr err => (s, ([], Some (exitError ExitGeneral ("load config: " +:+ Error err))))
  | inl cfg =>
      match Config_Set cfg key value with
      | (_, false) =>
          (s, ([], Some (exitError ExitUsage
                           ("unknown key " +:+ strconv_Quote key +:+ nl +:+ nl
                              +:+ "Valid keys: " +:+ strings_Join ValidKeys ", "))))
      | (cfg, true) =>
          match Save s cfg with
          | (s, Some err) =>
              (s, ([], Some (exitError ExitFileIO ("save config: " +:+ Error err))))
          | (s, None) =>
              (s, (if negb flagQuiet then ["Set " +:+ key +:+ " = " +:+ value] else [],
                   None))
          end
      end
  end.

End ConfigCommands.

(* ===================================================================== *)
(** * [internal/cli/icon.go] *)
(* ===================================================================== *)

Section Icon.
Context `{Lib}.

(** The block of [runIcon] that sets [outPath], for one of [nSizes] sizes:
    [outPath[:len(outPath)-len(ext)]] is a slice of the path. *)
Definition iconOutPath (flagOutput iconFormat : string) (size : Z) (nSizes : nat)
  : string :=
  if String.eqb flagOutput "" then
    let ext := ExtForFormat iconFormat in
    "icon-" +:+ itoa size +:+ ext
  else if Nat.ltb 1 nSizes then
    let ext := filepath_Ext flagOutput in
    let base := substring 0 (String.length flagOutput - String.length ext) flagOutput in
    base +:+ "-" +:+ itoa size +:+ ext
  else flagOutput.

End Icon.

(* ===================================================================== *)
(** * [internal/gemini/prompt.go]: the prompts *)
(* ===================================================================== *)

(** [EnrichGeneratePrompt]; [parts] grows by [append]. *)
Definition EnrichGeneratePrompt (prompt style : string) (variations : list string)
  : string :=
  let parts := [prompt] in
  let parts := if negb (String.eqb style "") then (parts ++ ["Style: " +:+ style])%list
               else parts in
  let parts := fold_left (λ parts v, (parts ++ ["Vary the " +:+ v])%list) variations parts in
  strings_Join parts ". ".

Definition EnrichEditPrompt (prompt : string) : string :=
  "Edit this image: " +:+ prompt.

Definition EnrichRestorePrompt (prompt : string) : string :=
  if String.eqb prompt "" then
    "Restore and enhance this image. Improve quality, fix artifacts, and sharpen details."
  else "Restore and enhance this image: " +:+ prompt.

Definition EnrichIconPrompt (prompt style : string) (size : Z) (background corners : string)
  : string :=
  let parts :=
    [ "Generate an app icon: " +:+ prompt;
      "Style: " +:+ style;
      "Size: " +:+ itoa size +:+ "x" +:+ itoa size +:+ " pixels" ] in
  let parts :=
    if negb (String.eqb background "transparent")
    then (parts ++ ["Background: " +:+ background])%list
    else (parts ++ ["Background: transparent"])%list in
  let parts :=
    if String.eqb corners "rounded"
    then (parts ++ ["Rounded corners suitable for app icons"])%list
    else (parts ++ ["Sharp corners"])%list in
  let parts :=
    (parts ++ ["Clean, centered design suitable for use as an application icon"])%list in
  strings_Join parts ". ".

Definition EnrichPatternPrompt (prompt style colors density tileSize repeat : string)
  : string :=
  let parts :=
    [ "Generate a seamless " +:+ style +:+ " pattern: " +:+ prompt;
      "Color scheme: " +:+ colors;
      "Element density: " +:+ density;
      "Tile size: " +:+ tileSize ] in
  let parts :=
    if String.eqb repeat "mirror"
    then (parts ++ ["Use mirror tiling for seamless repetition"])%list
    else (parts ++ ["Design for seamless tile repetition"])%list in
  strings_Join parts ". ".

(** [EnrichStoryPrompt]; in the second [switch] the case [1] comes before the
    case [totalSteps]. *)
Definition EnrichStoryPrompt (prompt : string) (step totalSteps : Z)
    (style transition : string) : string :=
  let parts :=
    [ "Generate frame " +:+ itoa step +:+ " of " +:+ itoa totalSteps
        +:+ " for a visual story: " +:+ prompt ] in
  let parts :=
    if String.eqb style "consistent"
    then (parts ++ ["Maintain consistent visual style, characters, and setting across all frames"])%list
    else (parts ++ ["Allow the visual style to evolve naturally across frames"])%list in
  let parts :=
    if String.eqb transition "dramatic"
    then (parts ++ ["Use dramatic transitions between scenes"])%list
    else if String.eqb transition "fade"
    then (parts ++ ["Use subtle, fading transitions between scenes"])%list
    else (parts ++ ["Use smooth, natural transitions between scenes"])%list in
  let parts :=
    if Z.eqb step 1
    then (parts ++ ["This is the opening scene — establish the setting and characters"])%list
    else if Z.eqb step totalSteps
    then (parts ++ ["This is the final scene — bring the story to a conclusion"])%list
    else (parts ++ ["This is scene " +:+ itoa step
                      +:+ " — continue developing the narrative"])%list in
  strings_Join parts ". ".

Definition EnrichDiagramPrompt (prompt diagramType style layout complexity colors : string)
  : string :=
  let parts :=
    [ "Generate a " +:+ diagramType +:+ " diagram: " +:+ prompt;
      "Visual style: " +:+ style;
      "Layout: " +:+ layout;
      "Level of detail: " +:+ complexity;
      "Color scheme: " +:+ colors;
      "Include clear labels and annotations";
      "Professional quality suitable for documentation or presentations" ] in
  strings_Join parts ". ".

(* ===================================================================== *)
(** * [internal/output/json.go], [internal/output/preview.go],
      [internal/cli/edit.go] and [cmd/nba/main.go] *)
(* ===================================================================== *)

(** [type Result struct]; [Params] is a [map[string]any], whose values are
    strings in [runEdit]. *)
Record Result := mkResult {
  Result_Path : string;
  Result_Command : string;
  Result_Prompt : string;
  Result_ElapsedMs : Z;
  Result_Params : gmap string string
}.

(** The package-level flags of [root.go]. *)
Record Flags := mkFlags {
  flagJSON : bool;
  flagOutput : string;
  flagQuiet : bool;
  flagModel : string;
  flagNoInput : bool
}.

(** The host of the process: the clock ([time_Since_Milliseconds start now]
    is [time.Since(start).Milliseconds()] read in the state [now] for a
    [start] taken in the state [start]), the operating system's name, the
    launcher of programs and the indenting JSON encoder. *)
Class Host `{OS} := {
  time_Since_Milliseconds : fs → fs → Z;
  runtime_GOOS : string;
  exec_Start : string → string → option error;
  json_MarshalIndent_Result : Result → list byte * option error;
  json_MarshalIndent_Results : list Result → list byte * option error
}.

(** What [runEdit] returns: an [*exitCodeError], or the plain error of the
    JSON encoder. *)
Inductive cliError :=
| ExitErr (e : exitCodeError)
| PlainErr (err : error).

(** How a command ends: it returns, with an error or [nil], or it panics. *)
Inductive outcome :=
| Returns (err : option cliError)
| Panics.

(** [main]: the status of the process for what [cli.Execute] returns. *)
Definition exitStatus (err : option cliError) : Z :=
  match err with
  | None => 0
  | Some (ExitErr e) => code e
  | Some (PlainErr _) => 1
  end.

(** [main]: what it writes to the standard error for what [cli.Execute]
    returns, [fmt.Fprintln(os.Stderr, err)]; the text of an [*exitCodeError]
    is its message. *)
Definition cliError_Error (err : cliError) : string :=
  match err with
  | ExitErr e => message e
  | PlainErr err => Error err
  end.

Definition mainStderr (err : option cliError) : list string :=
  match err with
  | None => []
  | Some err => [cliError_Error err +:+ nl]
  end.

Section Edit.
Context `{Lib} `{OS} `{Env} `{!Host}.

Definition defaultBaseURL : string := "https://generativelanguage.googleapis.com/v1beta".
Definition defaultModel : string := "gemini-2.0-flash-exp-image-generation".

(** [NewClient]; the timeout of its [http.Client] is that of the transport. *)
Definition NewClient (apiKey model : string) : Client :=
  let model := if String.eqb model "" then defaultModel else model in
  let baseURL := defaultBaseURL in
  let override := os_Getenv "GEMINI_BASE_URL" in
  let baseURL := if negb (String.eqb override "") then override else baseURL in
  {| APIKey := apiKey; Model := model; BaseURL := baseURL |}.

(** [NewResult], with the states in which [start] was taken and in which the
    result is made. *)
Definition NewResult (path command prompt : string) (start now : fs) : Result :=
  {| Result_Path := path;
     Result_Command := command;
     Result_Prompt := prompt;
     Result_ElapsedMs := time_Since_Milliseconds start now;
     Result_Params := ∅ |}.

(** [Preview]: the program that [exec.Command(cmd, path).Start()] is asked to
    start, with the path, and the error of the start. *)
Definition Preview (path : string) : (string * string) * option error :=
  let cmd :=
    if String.eqb runtime_GOOS "darwin" then "open"
    else if String.eqb runtime_GOOS "windows" then "start"
    else "xdg-open" in
  ((cmd, path), exec_Start cmd path).

(** [PrintJSON] and [PrintJSONMulti]: what is printed on the standard output,
    and the error. *)
Definition PrintJSON (r : Result) : list string * option error :=
  match json_MarshalIndent_Result r with
  | (_, Some err) => ([], Some err)
  | (data, None) => ([string_of_list_byte data +:+ nl], None)
  end.

Definition PrintJSONMulti (results : list Result) : list string * option error :=
  match json_MarshalIndent_Results results with
  | (_, Some err) => ([], Some err)
  | (data, None) => ([string_of_list_byte data +:+ nl], None)
  end.

(** A run of a command: the file system afterwards, what was written to the
    standard output and to the standard error, the calls of [Preview] (the
    program and the path of each, whether or not the program started), and how
    the command ended. *)
Record Run := mkRun {
  run_fs : fs;
  run_stdout : list string;
  run_stderr : list string;
  run_previews : list (string * string);
  run_outcome : outcome
}.

(** The loop of [runEdit] over the images, from index [i] on, with the
    results, the output and the calls of [Preview] so far. *)
Fixpoint editLoop (start s : fs) (fl : Flags) (editPreview : bool)
    (imagePath prompt : string) (images : list ImageResult) (i : Z)
    (allResults : list Result) (stdout stderr : list string)
    (previews : list (string * string)) : Run :=
  match images with
  | [] =>
      if flagJSON fl then
        let printed :=
          match allResults with
          | [r] => PrintJSON r
          | _ => PrintJSONMulti allResults
          end in
        match printed with
        | (_, Some err) => mkRun s stdout stderr previews (Returns (Some (PlainErr err)))
        | (out, None) => mkRun s (stdout ++ out) stderr previews (Returns None)
        end
      else mkRun s stdout stderr previews (Returns None)
  | img :: rest =>
      match WriteImage s (ImageResult_Data img) (ImageResult_MIMEType img)
                       (flagOutput fl) "edit" i with
      | (s, (_, Some err)) =>
          mkRun s stdout stderr previews
                (Returns (Some (ExitErr (exitError ExitFileIO (Error err)))))
      | (s, (path, None)) =>
          let result := NewResult path "edit" prompt start s in
          let result :=
            {| Result_Path := Result_Path result;
               Result_Command := Result_Command result;
               Result_Prompt := Result_Prompt result;
               Result_ElapsedMs := Result_ElapsedMs result;
               Result_Params := {[ "input" := imagePath ]} |} in
          let allResults := (allResults ++ [result])%list in
          let stdout :=
            if negb (flagJSON fl) && negb (flagQuiet fl)
            then (stdout ++ ["Saved: " +:+ path +:+ nl])%list else stdout in
          let previews :=
            if editPreview then (previews ++ [fst (Preview path)])%list else previews in
          editLoop start s fl editPreview imagePath prompt rest (i + 1)
                   allResults stdout stderr previews
      end
  end.

(** [runEdit]. A nil [*Config] is dereferenced when [config.Load] fails. *)
Definition runEdit (s : fs) (fl : Flags) (editPreview : bool) (imagePath prompt : string)
  : Run :=
  let start := s in
  let apiKey := ResolveAPIKey s in
  if String.eqb apiKey "" then
    mkRun s [] [] []
      (Returns (Some (ExitErr (exitError ExitAuth
         ("GEMINI_API_KEY not set." +:+ nl +:+ nl
            +:+ "Set it with: export GEMINI_API_KEY=<your-key>" +:+ nl
            +:+ "Or run: nba config set api_key <your-key>")))))
  else if os_IsNotExist (os_Stat s imagePath) then
    mkRun s [] [] []
      (Returns (Some (ExitErr (exitError ExitFileIO
         ("input file not found: " +:+ imagePath)))))
  else
    let model :=
      if String.eqb (flagModel fl) "" then
        match Load s with
        | inl cfg => Some (Config_Model cfg)
        | inr _ => None
        end
      else Some (flagModel fl) in
    match model with
    | None => mkRun s [] [] [] Panics
    | Some model =>
        let client := NewClient apiKey model in
        let enrichedPrompt := EnrichEditPrompt prompt in
        let stderr := if negb (flagQuiet fl) then ["Editing image..." +:+ nl] else [] in
        match GenerateWithImage client s enrichedPrompt imagePath with
        | (_, Some err) =>
            mkRun s [] stderr [] (Returns (Some (ExitErr (handleAPIError err))))
        | (images, None) =>
            editLoop start s fl editPreview imagePath prompt images 0 [] [] stderr []
        end
    end.

End Edit.

(* ===================================================================== *)
(** * An environment to run the code in *)
(* ===================================================================== *)

(** The environment of the repository's tests: an RFC 4648 codec in the
    manner of [base64.StdEncoding], a server that answers every request with
    one canned response (as [httptest.NewServer] does in the tests of the
    client), and a file
    system that is a finite map from paths to contents. *)

Definition dq : string := String (Ascii.ascii_of_nat 34) EmptyString.
Definition pad : ascii := Ascii.ascii_of_nat 61.

Definition b64_alphabet : string :=
  "ABCDEFGHIJKLMNOPQRSTUVWXYZabcdefghijklmnopqrstuvwxyz0123456789+/".

Definition b64_char (v : N) : ascii :=
  match String.get (N.to_nat v) b64_alphabet with
  | Some c => c
  | None => pad
  end.

(** [decodeMap] of the standard alphabet. *)
Definition b64_value (c : ascii) : option N :=
  let n := N_of_ascii c in
  if (65 <=? n)%N && (n <=? 90)%N then Some (n - 65)%N
  else if (97 <=? n)%N && (n <=? 122)%N then Some (n - 71)%N
  else if (48 <=? n)%N && (n <=? 57)%N then Some (n + 4)%N
  else if (n =? 43)%N then Some 62%N
  else if (n =? 47)%N then Some 63%N
  else None.

Definition byte_of_N (n : N) : byte := byte_of_ascii (ascii_of_N (n mod 256)).
Definition N_of_byte (b : byte) : N := N_of_ascii (ascii_of_byte b).

Fixpoint b64_encode (data : list byte) : string :=
  match data with
  | [] => ""
  | [a] =>
      let v := (N_of_byte a * 65536)%N in
      String (b64_char (v / 262144)) (String (b64_char (v / 4096 mod 64))
        (String pad (String pad "")))
  | [a; b] =>
      let v := (N_of_byte a * 65536 + N_of_byte b * 256)%N in
      String (b64_char (v / 262144)) (String (b64_char (v / 4096 mod 64))
        (String (b64_char (v / 64 mod 64)) (String pad "")))
  | a :: b :: c :: rest =>
      let v := (N_of_byte a * 65536 + N_of_byte b * 256 + N_of_byte c)%N in
      String (b64_char (v / 262144)) (String (b64_char (v / 4096 mod 64))
        (String (b64_char (v / 64 mod 64)) (String (b64_char (v mod 64))
          (b64_encode rest))))
  end.

Definition CorruptInputError (n : nat) : error :=
  LibErr ("illegal base64 data at input byte " +:+ itoa (Z.of_nat n)).

Definition is_newline (c : ascii) : bool :=
  let n := nat_of_ascii c in Nat.eqb n 10 || Nat.eqb n 13.

Fixpoint skip_newlines (src : list ascii) (si : nat) : list ascii * nat :=
  match src with
  | c :: rest => if is_newline c then skip_newlines rest (S si) else (src, si)
  | [] => ([], si)
  end.

(** The bytes of a quantum of [dlen] six-bit values [dbuf] (missing values are
    zero): [dlen - 1] of them. *)
Definition quantum_bytes (dbuf : list N) : list byte :=
  let v := (nth 0 dbuf 0 * 262144 + nth 1 dbuf 0 * 4096 + nth 2 dbuf 0 * 64 + nth 3 dbuf 0)%N in
  take (length dbuf - 1) [byte_of_N (v / 65536); byte_of_N (v / 256); byte_of_N v].

(** Decoding, one input byte at a time: [si] is the index of the next byte,
    [dbuf] the values of the current quantum, [out] the bytes decoded so far,
    [len] the length of the whole input. Line breaks are skipped; padding
    must complete the last quantum and end the input. *)
Fixpoint b64_decode_from (src : list ascii) (len si : nat) (dbuf : list N) (out : list byte)
  : list byte * option error :=
  match src with
  | [] =>
      match dbuf with
      | [] => (out, None)
      | _ => (out, Some (CorruptInputError (si - length dbuf)))
      end
  | c :: rest =>
      match b64_value c with
      | Some v =>
          if Nat.eqb (length dbuf) 3
          then b64_decode_from rest len (S si) [] (out ++ quantum_bytes (dbuf ++ [v]))
          else b64_decode_from rest len (S si) (dbuf ++ [v]) out
      | None =>
          if is_newline c then b64_decode_from rest len (S si) dbuf out
          else if negb (Ascii.eqb c pad) then (out, Some (CorruptInputError si))
          else
            match length dbuf with
            | 2%nat =>
                match skip_newlines rest (S si) with
                | ([], _) => (out, Some (CorruptInputError len))
                | (c2 :: rest2, si2) =>
                    if negb (Ascii.eqb c2 pad) then (out, Some (CorruptInputError (si2 - 1)))
                    else
                      match skip_newlines rest2 (S si2) with
                      | ([], _) => ((out ++ quantum_bytes dbuf)%list, None)
                      | (_, si3) =>
                          ((out ++ quantum_bytes dbuf)%list, Some (CorruptInputError si3))
                      end
                end
            | 3%nat =>
                match skip_newlines rest (S si) with
                | ([], _) => ((out ++ quantum_bytes dbuf)%list, None)
                | (_, si3) => ((out ++ quantum_bytes dbuf)%list, Some (CorruptInputError si3))
                end
            | _ => (out, Some (CorruptInputError si))
            end
      end
  end.

Definition b64_decode (s : string) : list byte * option error :=
  b64_decode_from (list_ascii_of_string s) (String.length s) 0 [] [].

(** The file system of the tests: the regular files. Directories are not
    recorded: creating one changes nothing and always succeeds. *)
Record MemFS := mkMemFS {
  files : gmap string (list byte)
}.

Definition mem_Stat (s : MemFS) (path : string) : option error :=
  match files s !! path with
  | Some _ => None
  | None => Some (NotExistErr ("stat " +:+ path +:+ ": no such file or directory"))
  end.

Definition mem_ReadFile (s : MemFS) (path : string) : list byte * option error :=
  match files s !! path with
  | Some data => (data, None)
  | None => ([], Some (NotExistErr ("open " +:+ path +:+ ": no such file or directory")))
  end.

Definition mem_WriteFile (s : MemFS) (path : string) (data : list byte)
  : MemFS * option error :=
  ({| files := <[path := data]> (files s) |}, None).

(** [filepath.IsAbs]. *)
Definition filepath_IsAbs (path : string) : bool :=
  match path with
  | String c _ => Ascii.eqb c slash
  | EmptyString => false
  end.

(** [filepath.Abs] on a path that needs no cleaning; [cwd] is the working
    directory, [None] when it cannot be determined (it has been removed). *)
Definition mem_Abs (cwd : option string) (path : string) : string * option error :=
  if filepath_IsAbs path then (path, None)
  else match cwd, path with
       | Some wd, EmptyString => (wd, None)
       | Some wd, _ => (wd +:+ "/" +:+ path, None)
       | None, _ => ("", Some (LibErr "getwd: no such file or directory"))
       end.

(** [filepath.Dir] on a path that needs no cleaning: what precedes the last
    separator. [seen] is the reversed path up to the current byte. *)
Fixpoint mem_Dir_scan (rev_path : list ascii) : string :=
  match rev_path with
  | [] => "."
  | c :: rest =>
      if Ascii.eqb c slash
      then match rest with
           | [] => "/"
           | _ => string_of_list_ascii (rev rest)
           end
      else mem_Dir_scan rest
  end.

Definition mem_Dir (path : string) : string :=
  mem_Dir_scan (rev (list_ascii_of_string path)).

Definition memOS (cwd : option string) : OS := {|
  fs := MemFS;
  os_Stat := mem_Stat;
  os_MkdirAll := λ s _, (s, None);
  os_WriteFile := mem_WriteFile;
  os_ReadFile := mem_ReadFile;
  filepath_Abs := mem_Abs cwd;
  filepath_Dir := mem_Dir;
  time_Now_Format := λ _, "20260209-150405"
|}.

(** The library with a server that answers [resp] to every request, and a
    JSON decoder that reads [genResp] in a success body and [errResp] in an
    error body. *)
Definition testLib (resp : HTTPResponse * option error)
    (genResp : GenerateResponse * option error)
    (errResp : ErrorResponse * option error) : Lib := {|
  json_Marshal := λ _, ([], None);
  json_Unmarshal_GenerateResponse := λ _, genResp;
  json_Unmarshal_ErrorResponse := λ _, errResp;
  base64_DecodeString := b64_decode;
  base64_EncodeToString := b64_encode;
  unicode_ToLower := λ s, s;
  strconv_Quote := λ s, dq +:+ s +:+ dq;
  http_NewRequest := λ method url body,
    ({| Req_Method := method; Req_URL := url; Req_Header := []; Req_Body := body |}, None);
  http_Do := λ _, resp
|}.

(** [[]byte(s)]. *)
Definition bytes (s : string) : list byte := list_byte_of_string s.

(** Sample values of the tests. The text of a JSON body is not modelled:
    [testLib] is given what the decoder reads in it. *)
Definition testClient : Client :=
  {| APIKey := "test-key"; Model := "test-model"; BaseURL := "http://127.0.0.1:8080" |}.

Definition pngPart (data : string) : Part :=
  {| Part_Text := "";
     Part_InlineData := Some {| InlineData_MIMEType := "image/png"; InlineData_Data := data |} |}.

Definition modelCandidate (parts : list Part) : Candidate :=
  {| Candidate_Content := Some {| Content_Role := "model"; Content_Parts := parts |};
     Candidate_FinishReason := "";
     Candidate_SafetyRatings := [] |}.

Definition noEnvelope : ErrorResponse * option error :=
  ({| ErrorResponse_Code := 0; ErrorResponse_Message := ""; ErrorResponse_Status := "" |},
   Some (LibErr "invalid character 'o' in literal null (expecting 'u')")).

(** A server that answers 200 with a blocked prompt although a valid image
    comes with it. *)
Definition blockedResponse : GenerateResponse :=
  {| Candidates := [ modelCandidate [ pngPart "ZmFrZS1wbmctZGF0YQ==" ] ];
     PromptFeedback_ :=
       Some {| BlockReason := "SAFETY"; PromptFeedback_SafetyRatings := [] |} |}.

Definition blockedLib : Lib :=
  testLib ({| Resp_StatusCode := 200; Resp_Body := (bytes "{...}", None) |}, None)
          (blockedResponse, None) noEnvelope.

(** A server that answers 200 with a body that is not JSON
    ([TestDoRequest_MalformedJSON]). *)
Definition malformedLib : Lib :=
  testLib ({| Resp_StatusCode := 200; Resp_Body := (bytes "not json", None) |}, None)
          ({| Candidates := []; PromptFeedback_ := None |},
           Some (LibErr "invalid character 'o' in literal null (expecting 'u')"))
          noEnvelope.

(** A server that answers 500 with a body that is not an error envelope
    ([TestParseAPIError_MalformedBody]). *)
Definition serverErrorLib : Lib :=
  testLib ({| Resp_StatusCode := 500; Resp_Body := (bytes "not json", None) |}, None)
          ({| Candidates := []; PromptFeedback_ := None |}, None) noEnvelope.

(** A library whose server and JSON decoder play no part: for the functions
    that only decode payloads. *)
Definition codecLib : Lib :=
  testLib ({| Resp_StatusCode := 200; Resp_Body := ([], None) |}, None)
          ({| Candidates := []; PromptFeedback_ := None |}, None) noEnvelope.

Definition textPart (text : string) : Part :=
  {| Part_Text := text; Part_InlineData := None |}.

Definition emptyCandidate : Candidate :=
  {| Candidate_Content := None; Candidate_FinishReason := "SAFETY";
     Candidate_SafetyRatings := [] |}.

(** Two candidates with images around one without content; the payloads are
    [img-a], [img-b] and [img-c] in base 64. *)
Definition threeImages : GenerateResponse :=
  {| Candidates :=
       [ modelCandidate [ textPart "here you are"; pngPart "aW1nLWE="; pngPart "aW1nLWI=" ];
         emptyCandidate;
         modelCandidate
           [ {| Part_Text := "";
                Part_InlineData := Some {| InlineData_MIMEType := "image/jpeg";
                                           InlineData_Data := "aW1nLWM=" |} |} ] ];
     PromptFeedback_ := None |}.

(** A refusal: text only, and a candidate without content. *)
Definition refusal : GenerateResponse :=
  {| Candidates := [ modelCandidate [ textPart "some text, no image" ]; emptyCandidate ];
     PromptFeedback_ := None |}.

(** A good image followed by a payload that is not base 64
    ([TestExtractImages_MalformedBase64]). *)
Definition malformedImage : GenerateResponse :=
  {| Candidates := [ modelCandidate [ pngPart "aW1nLWE="; pngPart "!!!invalid!!!" ] ];
     PromptFeedback_ := None |}.

(** A file system with one image: [photo.JPG] holds the bytes [hello]. *)
Definition onePhoto : MemFS :=
  {| files := {[ "photo.JPG" := bytes "hello" ]} |}.

Definition workOS : OS := memOS (Some "/work").

(** The directory of [TestDedup_MultipleConflicts]. *)
Definition threeConflicts : MemFS :=
  {| files := {[ "test.png" := []; "test-1.png" := []; "test-2.png" := [] ]} |}.

Definition emptyFS : MemFS := {| files := ∅ |}.

(** Three images of one response. *)
Definition threeResults : list ImageResult :=
  [ {| ImageResult_Data := bytes "img-a"; ImageResult_MIMEType := "image/png" |};
    {| ImageResult_Data := bytes "img-b"; ImageResult_MIMEType := "image/png" |};
    {| ImageResult_Data := bytes "img-c"; ImageResult_MIMEType := "image/jpeg" |} ].


(** A server that answers 200 with [threeImages]. *)
Definition imagesLib : Lib :=
  testLib ({| Resp_StatusCode := 200; Resp_Body := (bytes "{...}", None) |}, None)
          (threeImages, None) noEnvelope.

(** A server that cannot be reached. *)
Definition unreachableLib : Lib :=
  testLib ({| Resp_StatusCode := 0; Resp_Body := ([], None) |},
           Some (LibErr "dial tcp 127.0.0.1:8080: connect: connection refused"))
          ({| Candidates := []; PromptFeedback_ := None |}, None) noEnvelope.

(** A server that answers 401 with an error envelope
    ([TestGenerateCmd_APIError401]). *)
Definition unauthorizedLib : Lib :=
  testLib ({| Resp_StatusCode := 401; Resp_Body := (bytes "{...}", None) |}, None)
          ({| Candidates := []; PromptFeedback_ := None |}, None)
          ({| ErrorResponse_Code := 401; ErrorResponse_Message := "API key not valid";
              ErrorResponse_Status := "UNAUTHENTICATED" |}, None).

(** An envelope whose [code] is a string where the struct has an [int]:
    [{ error: { code: 400 as a string, message: boom } }]. [json.Unmarshal]
    reports the mismatch, skips that field and goes on decoding, so the
    message is filled although the body is no well-formed envelope. *)
Definition quoted (s : string) : string := dq +:+ s +:+ dq.

Definition mistypedBody : list byte :=
  bytes ("{" +:+ quoted "error" +:+ ":{" +:+ quoted "code" +:+ ":" +:+ quoted "400"
           +:+ "," +:+ quoted "message" +:+ ":" +:+ quoted "boom" +:+ "}}").

Definition mistypedLib : Lib :=
  testLib ({| Resp_StatusCode := 400; Resp_Body := (mistypedBody, None) |}, None)
          ({| Candidates := []; PromptFeedback_ := None |}, None)
          ({| ErrorResponse_Code := 0; ErrorResponse_Message := "boom";
              ErrorResponse_Status := "" |},
           Some (LibErr ("json: cannot unmarshal string into Go struct field "
                           +:+ ".error.code of type int"))).

(** The capital I with a dot above, U+0130, in UTF-8; [unicode.ToLower] maps
    it to the letter [i]. *)
Definition dottedI : string :=
  String (Ascii.ascii_of_nat 196) (String (Ascii.ascii_of_nat 176) EmptyString).

(** A stand-in for the Unicode lowering of [strings.ToLower] that knows the
    ASCII letters and U+0130. *)
Fixpoint dotted_lower (s : string) : string :=
  match s with
  | EmptyString => EmptyString
  | String c rest =>
      match rest with
      | String d rest' =>
          if Nat.eqb (nat_of_ascii c) 196 && Nat.eqb (nat_of_ascii d) 176
          then String "i"%char (dotted_lower rest')
          else String (lower_ascii c) (dotted_lower rest)
      | EmptyString => String (lower_ascii c) EmptyString
      end
  end.

Definition dottedLib : Lib := {|
  json_Marshal := λ _, ([], None);
  json_Unmarshal_GenerateResponse := λ _, ({| Candidates := []; PromptFeedback_ := None |}, None);
  json_Unmarshal_ErrorResponse := λ _, noEnvelope;
  base64_DecodeString := b64_decode;
  base64_EncodeToString := b64_encode;
  unicode_ToLower := dotted_lower;
  strconv_Quote := quoted;
  http_NewRequest := λ method url body,
    ({| Req_Method := method; Req_URL := url; Req_Header := []; Req_Body := body |}, None);
  http_Do := λ _, ({| Resp_StatusCode := 200; Resp_Body := ([], None) |}, None)
|}.

(** A file whose extension is [.G], U+0130, [F], holding the bytes [hello]. *)
Definition dottedName : string := "x.G" +:+ dottedI +:+ "F".

Definition dottedPhoto : MemFS :=
  {| files := {[ dottedName := bytes "hello" ]} |}.

(** A stand-in for the YAML codec: one field per line. *)
Fixpoint split_lines (s : string) (line : string) : list string :=
  match s with
  | EmptyString => [line]
  | String c rest =>
      if Nat.eqb (nat_of_ascii c) 10 then line :: split_lines rest ""
      else split_lines rest (line +:+ String c "")
  end.

Definition lines_Marshal (cfg : Config) : list byte * option error :=
  (list_byte_of_string
     (Config_APIKey cfg +:+ nl +:+ Config_Model cfg +:+ nl +:+ Config_DefaultOutputDir cfg),
   None).

Definition lines_Unmarshal (data : list byte) : Config * option error :=
  match data with
  | [] => (zeroConfig, None)
  | _ =>
      match split_lines (string_of_list_byte data) "" with
      | [k; m; d] =>
          ({| Config_APIKey := k; Config_Model := m; Config_DefaultOutputDir := d |}, None)
      | _ => (zeroConfig, Some (LibErr "yaml: unmarshal errors"))
      end
  end.

(** An environment with the variables [vars], the home directory
    [/home/user] and paths joined with [/]. *)
Definition testEnv (vars : list (string * string)) : Env := {|
  os_Getenv := λ name,
    match find (λ kv, String.eqb (fst kv) name) vars with
    | Some kv => snd kv
    | None => ""
    end;
  os_UserHomeDir := ("/home/user", None);
  filepath_Join := λ elems, strings_Join elems "/";
  yaml_Marshal := lines_Marshal;
  yaml_Unmarshal := lines_Unmarshal
|}.

(** No variable set; and the API key in the environment. *)
Definition bareEnv : Env := testEnv [].
Definition keyEnv : Env := testEnv [("GEMINI_API_KEY", "env-key")].

Definition savedConfig : Config :=
  {| Config_APIKey := "file-key"; Config_Model := "gemini-pro";
     Config_DefaultOutputDir := "/tmp/out" |}.

(** A host without a viewer: every program fails to start. The JSON encoder
    is a stand-in that writes the paths only. *)
Definition testHost (os : OS) : @Host os := {|
  time_Since_Milliseconds := λ _ _, 1500%Z;
  runtime_GOOS := "linux";
  exec_Start := λ cmd _,
    Some (LibErr ("exec: " +:+ dq +:+ cmd +:+ dq +:+ ": executable file not found in $PATH"));
  json_MarshalIndent_Result := λ r, (bytes ("{" +:+ Result_Path r +:+ "}"), None);
  json_MarshalIndent_Results := λ rs,
    (bytes ("[" +:+ strings_Join (map Result_Path rs) ", " +:+ "]"), None)
|}.

(** A disk with room for two files. *)
Definition quotaOS : OS := {|
  fs := MemFS;
  os_Stat := mem_Stat;
  os_MkdirAll := λ s _, (s, None);
  os_WriteFile := λ s path data,
    if Nat.ltb (size (files s)) 2 then mem_WriteFile s path data
    else (s, Some (LibErr ("open " +:+ path +:+ ": no space left on device")));
  os_ReadFile := mem_ReadFile;
  filepath_Abs := mem_Abs (Some "/work");
  filepath_Dir := mem_Dir;
  time_Now_Format := λ _, "20260209-150405"
|}.

(** The photo, and a config file that is not YAML. *)
Definition brokenConfig : MemFS :=
  {| files := {[ "photo.JPG" := bytes "hello";
                 "/home/user/.config/nba/config.yaml" := bytes "api_key: [" ]} |}.

(** [nba edit photo.JPG ... -o out.png -m test-model], and the same with
    [--json]. *)
Definition editFlags : Flags :=
  {| flagJSON := false; flagOutput := "out.png"; flagQuiet := false;
     flagModel := "test-model"; flagNoInput := false |}.

Definition jsonFlags : Flags :=
  {| flagJSON := true; flagOutput := "out.png"; flagQuiet := false;
     flagModel := "test-model"; flagNoInput := false |}.

(** [nba edit photo.JPG ... -o out.png -m test-model --quiet]. *)
Definition quietFlags : Flags :=
  {| flagJSON := false; flagOutput := "out.png"; flagQuiet := true;
     flagModel := "test-model"; flagNoInput := false |}.

(** No flag given. *)
Definition noFlags : Flags :=
  {| flagJSON := false; flagOutput := ""; flagQuiet := false;
     flagModel := ""; flagNoInput := false |}.

(* ===================================================================== *)
(** * The vocabulary of the specification *)
(* ===================================================================== *)

Section Vocabulary.
Context `{Lib} `{OS}.

(** The inline-data parts of a response, in candidate order, then in part
    order within a candidate; a candidate with no content has none, and a
    part with no inline data is not one. *)
Definition inlineParts (resp : GenerateResponse) : list InlineData :=
  flat_map (λ candidate,
              match Candidate_Content candidate with
              | None => []
              | Some content => omap Part_InlineData (Content_Parts content)
              end)
           (Candidates resp).

(** The payload of an inline-data part decodes. *)
Definition decodable (inline : InlineData) : Prop :=
  snd (base64_DecodeString (InlineData_Data inline)) = None.

(** The image of an inline-data part: its payload decoded, and its MIME
    type. *)
Definition imageOf (inline : InlineData) : ImageResult :=
  {| ImageResult_Data := fst (base64_DecodeString (InlineData_Data inline));
     ImageResult_MIMEType := InlineData_MIMEType inline |}.

(** The transport of [doRequest] succeeds: the request is marshalled and
    sent, and the server answers [status] with the body [respBody]. *)
Definition delivers (c : Client) (req : GenerateRequest) (status : Z)
    (respBody : list byte) : Prop :=
  ∃ body httpReq resp,
    json_Marshal req = (body, None) ∧
    http_NewRequest "POST" (BaseURL c +:+ "/models/" +:+ Model c +:+ ":generateContent") body
      = (httpReq, None) ∧
    http_Do (Header_Set (Header_Set httpReq "Content-Type" "application/json")
                        "x-goog-api-key" (APIKey c)) = (resp, None) ∧
    Resp_StatusCode resp = status ∧
    Resp_Body resp = (respBody, None).

(** The status-specific rewriting of the message of a non-200 response. *)
Definition rewritten (statusCode : Z) (msg : string) : string :=
  if decide (statusCode = 401 ∨ statusCode = 403) then
    "authentication failed: " +:+ msg +:+ nl +:+ nl
      +:+ "Set GEMINI_API_KEY or run: naba config set api_key <your-key>"
  else if decide (statusCode = 429) then
    "rate limit exceeded: " +:+ msg +:+ nl +:+ nl +:+ "Wait a moment and try again."
  else if decide (500 ≤ statusCode)%Z then
    "Gemini server error: " +:+ msg +:+ nl +:+ nl
      +:+ "This is a temporary issue. Try again shortly."
  else msg.

(** A candidate that contributes no image: it has no content, or its parts
    carry no inline data. *)
Definition imageless (candidate : Candidate) : Prop :=
  match Candidate_Content candidate with
  | None => True
  | Some content => Forall (λ part, Part_InlineData part = None) (Content_Parts content)
  end.

(** Equal up to the case of the ASCII letters. *)
Definition equalFold (s t : string) : Prop :=
  map_string lower_ascii s = map_string lower_ascii t.

(** The extensions that have a MIME type of their own. *)
Definition mimeTable : list (string * string) :=
  [ (".png", "image/png"); (".jpg", "image/jpeg"); (".jpeg", "image/jpeg");
    (".gif", "image/gif"); (".webp", "image/webp"); (".bmp", "image/bmp") ].

(** The MIME type of a lowered extension: that of the table, [image/png]
    when the table does not have it. *)
Fixpoint lookupMIME (table : list (string * string)) (lowered : string) : string :=
  match table with
  | [] => "image/png"
  | (ext, mime) :: rest => if String.eqb lowered ext then mime else lookupMIME rest lowered
  end.

(** A response is not blocked: it has no prompt feedback, or one with an
    empty block reason. *)
Definition unblocked (genResp : GenerateResponse) : Prop :=
  ∀ feedback, PromptFeedback_ genResp = Some feedback → BlockReason feedback = "".

(** A byte that [filepath.Ext] passes over: neither a dot nor a separator. *)
Definition plain (c : ascii) : bool := negb (Ascii.eqb c slash) && negb (Ascii.eqb c dot).

(** What [EnrichGeneratePrompt] adds to the prompt. *)
Definition enrichment (style : string) (variations : list string) : string :=
  (if String.eqb style "" then "" else ". Style: " +:+ style)
  +:+ fold_right (λ v acc, ". Vary the " +:+ v +:+ acc) "" variations.

(** [sub] occurs in [s]. *)
Definition mentions (s sub : string) : Prop :=
  ∃ before after, s = before +:+ sub +:+ after.

End Vocabulary.

Section WriterVocabulary.
Context `{OS}.

(** [os.Stat] says that nothing exists at [path]. *)
Definition free (s : fs) (path : string) : Prop :=
  os_IsNotExist (os_Stat s path) = true.

(** [path] with the suffix [-i] before its extension. *)
Definition candidate (path : string) (i : Z) : string :=
  suffixed (strings_TrimSuffix path (filepath_Ext path)) i (filepath_Ext path).

(** The name of the output of index [index] for a requested path: the path
    itself for the first, [-{index+1}] before the extension for the others. *)
Definition indexedName (path : string) (index : Z) : string :=
  if decide (0 < index)%Z then candidate path (index + 1) else path.

(** What [WriteImage] returns for the path it has written: its absolute form,
    or the path itself when [filepath.Abs] fails. *)
Definition reported (path : string) : string :=
  match filepath_Abs path with
  | (absPath, None) => absPath
  | (_, Some _) => path
  end.

(** What the writer relies on in a file system: a file that has been written
    exists and holds what was written, and writing one file leaves the other
    paths as they were. *)
Class OSLaws : Prop := {
  WriteFile_ReadFile : ∀ s path data s',
    os_WriteFile s path data = (s', None) → os_ReadFile s' path = (data, None);
  WriteFile_Stat : ∀ s path data s',
    os_WriteFile s path data = (s', None) → os_IsNotExist (os_Stat s' path) = false;
  WriteFile_other : ∀ s path data s' q,
    os_WriteFile s path data = (s', None) → q ≠ path →
    os_Stat s' q = os_Stat s q ∧ os_ReadFile s' q = os_ReadFile s q
}.





End WriterVocabulary.

Section ConfigVocabulary.
Context `{Env}.

(** The YAML codec reads back what it writes for [cfg]. *)
Definition reads_back (cfg : Config) : Prop :=
  ∀ data, yaml_Marshal cfg = (data, None) → yaml_Unmarshal data = (cfg, None).

End ConfigVocabulary.

Section EditVocabulary.
Context `{Lib} `{OS} `{Env} `{!Host}.

(** The model of a run: that of the flag [--model], or else that of a config
    that loads. *)
Definition chosenModel (s : fs) (fl : Flags) (model : string) : Prop :=
  (flagModel fl ≠ "" ∧ model = flagModel fl) ∨
  (flagModel fl = "" ∧ ∃ cfg, Load s = inl cfg ∧ model = Config_Model cfg).

(** The lines that report saved files. *)
Definition savedLines (paths : list string) : list string :=
  map (λ path, "Saved: " +:+ path +:+ nl) paths.

(** The calls of [Preview] for files, one per path: the program of the host
    and the path. *)
Definition previewed (paths : list string) : list (string * string) :=
  map (λ path, fst (Preview path)) paths.

(** A result describes an edit written at [path]. *)
Definition describes (imagePath prompt : string) (r : Result) (path : string) : Prop :=
  Result_Path r = path ∧ Result_Command r = "edit" ∧ Result_Prompt r = prompt ∧
  Result_Params r = {[ "input" := imagePath ]}.

(** The JSON document of the results: an object for one result, an array
    otherwise. *)
Definition document (results : list Result) : list byte * option error :=
  if Nat.eqb (length results) 1
  then match results with
       | r :: _ => json_MarshalIndent_Result r
       | [] => json_MarshalIndent_Results results
       end
  else json_MarshalIndent_Results results.

(** The progress line of [runEdit]. *)
Definition progress (fl : Flags) : list string :=
  if flagQuiet fl then [] else ["Editing image..." +:+ nl].

End EditVocabulary.

(* ===================================================================== *)
(** * Facts about strings *)
(* ===================================================================== *)

Section StringFacts.

Lemma append_cons (x : ascii) (a c : string) : String x a +:+ c = String x (a +:+ c).
Proof. reflexivity. Qed.

Lemma append_nil_l (a : string) : "" +:+ a = a.
Proof. reflexivity. Qed.

Lemma la_app (a c : string) :
  list_ascii_of_string (a +:+ c) = (list_ascii_of_string a ++ list_ascii_of_string c)%list.
Proof.
  induction a as [|x a IH]; [reflexivity|].
  rewrite ?append_cons; cbn; rewrite ?append_cons; now rewrite IH.
Qed.


Lemma sl_app (l k : list ascii) :
  string_of_list_ascii (l ++ k) = string_of_list_ascii l +:+ string_of_list_ascii k.
Proof. induction l as [|x l IH]; cbn; [reflexivity | now rewrite IH, append_cons]. Qed.

Lemma append_assoc (a c d : string) : (a +:+ c) +:+ d = a +:+ (c +:+ d).
Proof.
  induction a as [|x a IH]; [reflexivity|].
  rewrite ?append_cons; cbn; rewrite ?append_cons; now rewrite IH.
Qed.

Lemma append_nil_r (a : string) : a +:+ "" = a.
Proof.
  induction a as [|x a IH]; [reflexivity|].
  rewrite ?append_cons; cbn; rewrite ?append_cons; now rewrite IH.
Qed.

Lemma append_length (a c : string) :
  String.length (a +:+ c) = (String.length a + String.length c)%nat.
Proof.
  induction a as [|x a IH]; [reflexivity|].
  rewrite ?append_cons; cbn; rewrite ?append_cons; now rewrite IH.
Qed.



Lemma substring_prefix (a c : string) : substring 0 (String.length a) (a +:+ c) = a.
Proof.
  induction a as [|x a IH]; [now destruct c|].
  rewrite append_cons. cbn. now rewrite IH.
Qed.

Lemma substring_all (a : string) : substring 0 (String.length a) a = a.
Proof. induction a as [|x a IH]; cbn; [reflexivity | now rewrite IH]. Qed.

Lemma substring_suffix (a c : string) :
  substring (String.length a) (String.length c) (a +:+ c) = c.
Proof.
  induction a as [|x a IH]; [apply substring_all|].
  rewrite append_cons. cbn. exact IH.
Qed.

(** [strings.TrimSuffix] removes a suffix that is there. *)
Lemma TrimSuffix_app (a c : string) : strings_TrimSuffix (a +:+ c) c = a.
Proof.
  unfold strings_TrimSuffix, strings_HasSuffix. rewrite append_length.
  replace (String.length a + String.length c - String.length c)%nat
    with (String.length a) by lia.
  rewrite substring_suffix, String.eqb_refl, substring_prefix.
  destruct (String.length c <=? String.length a + String.length c)%nat eqn:E;
    [reflexivity | apply Nat.leb_gt in E; lia].
Qed.

(** The scan of [filepath.Ext] yields a suffix of what it has visited. *)
Lemma ext_scan_suffix (r : list ascii) (acc : string) :
  ext_scan r acc = "" ∨
  ∃ r1 r2, r = (r1 ++ r2)%list ∧
           ext_scan r acc = string_of_list_ascii (rev r1) +:+ acc.
Proof.
  revert acc. induction r as [|c r IH]; intros acc; simpl; [now left|].
  destruct (Ascii.eqb c slash); [now left|].
  destruct (Ascii.eqb c dot).
  - right. exists [c], r. split; [reflexivity|reflexivity].
  - destruct (IH (String c acc)) as [E | (r1 & r2 & -> & E)]; [now left|].
    right. exists (c :: r1), r2. split; [reflexivity|].
    rewrite E. cbn [rev]. rewrite sl_app, append_assoc. reflexivity.
Qed.

(** [filepath.Ext path] is a suffix of [path], and [strings.TrimSuffix] gives
    the rest. *)
Lemma Ext_split (path : string) :
  strings_TrimSuffix path (filepath_Ext path) +:+ filepath_Ext path = path.
Proof.
  unfold filepath_Ext.
  destruct (ext_scan_suffix (rev (list_ascii_of_string path)) "") as [E | (r1 & r2 & E1 & E)].
  - rewrite E, append_nil_r.
    pose proof (TrimSuffix_app path "") as T. now rewrite append_nil_r in T.
  - rewrite E, append_nil_r.
    assert (P : path = string_of_list_ascii (rev r2) +:+ string_of_list_ascii (rev r1)).
    { rewrite <- sl_app, <- rev_app_distr, <- E1, rev_involutive.
      now rewrite string_of_list_ascii_of_string. }
    rewrite P at 1. rewrite TrimSuffix_app. now rewrite <- P.
Qed.

(** [%d] can be read back: it is injective and never empty. *)
Lemma itoa_parse (z : Z) : NilZero.int_of_string (itoa z) = Some (Z.to_int z).
Proof.
  unfold itoa. apply NilZero.isi.
  - intros C. pose proof (to_of (Z.to_int z)) as N. rewrite of_to in N.
    rewrite C in N. discriminate.
  - intros C. pose proof (to_of (Z.to_int z)) as N. rewrite of_to in N.
    rewrite C in N. discriminate.
Qed.


Lemma itoa_nonempty (n : Z) : itoa n ≠ "".
Proof. intros E. pose proof (itoa_parse n) as P. rewrite E in P. discriminate. Qed.

End StringFacts.

(* ===================================================================== *)
(** * The image extractor *)
(* ===================================================================== *)

Section ExtractFacts.
Context `{Lib}.

Lemma decodable_pair (inline : InlineData) :
  decodable inline →
  base64_DecodeString (InlineData_Data inline) = (ImageResult_Data (imageOf inline), None).
Proof.
  unfold decodable, imageOf. simpl.
  destruct (base64_DecodeString (InlineData_Data inline)) as [data e]. simpl.
  now intros ->.
Qed.

(** The inner loop, when every payload decodes: one image per inline-data
    part is appended, in order. *)
Lemma extractParts_Continue (parts : list Part) (images : list ImageResult) :
  Forall decodable (omap Part_InlineData parts) →
  extractParts parts images
  = Continue (images ++ map imageOf (omap Part_InlineData parts)).
Proof.
  revert images. induction parts as [|part rest IH]; intros images D; simpl.
  - now rewrite app_nil_r.
  - simpl in D. destruct (Part_InlineData part) as [inline|]; simpl in *.
    + apply Forall_cons in D as [D1 D2].
      rewrite (decodable_pair _ D1), (IH _ D2), <- app_assoc. reflexivity.
    + now apply IH.
Qed.

(** The inner loop, at the first payload that does not decode. *)
Lemma extractParts_Return (parts : list Part) (images : list ImageResult)
    (pre post : list InlineData) (inline : InlineData) (err : error) :
  omap Part_InlineData parts = (pre ++ inline :: post)%list →
  Forall decodable pre →
  snd (base64_DecodeString (InlineData_Data inline)) = Some err →
  extractParts parts images = Return (Errorf_w "decode image data: " err).
Proof.
  revert images pre. induction parts as [|part rest IH]; intros images pre E D F; simpl in *.
  - now destruct pre.
  - destruct (Part_InlineData part) as [x|]; simpl in *.
    + destruct pre as [|y pre]; simpl in E; injection E as -> E.
      * destruct (base64_DecodeString (InlineData_Data inline)) as [data e].
        simpl in F. now subst e.
      * apply Forall_cons in D as [D1 D2].
        rewrite (decodable_pair _ D1). now apply (IH _ pre).
    + now apply (IH _ pre).
Qed.

Lemma extractCandidates_Continue (candidates : list Candidate) (images : list ImageResult) :
  Forall decodable (inlineParts {| Candidates := candidates; PromptFeedback_ := None |}) →
  extractCandidates candidates images
  = Continue (images ++ map imageOf
                (inlineParts {| Candidates := candidates; PromptFeedback_ := None |})).
Proof.
  unfold inlineParts. simpl.
  revert images. induction candidates as [|candidate rest IH]; intros images D; simpl in *.
  - now rewrite app_nil_r.
  - destruct (Candidate_Content candidate) as [content|]; simpl in *.
    + apply Forall_app in D as [D1 D2].
      rewrite (extractParts_Continue _ _ D1), (IH _ D2), map_app, app_assoc.
      reflexivity.
    + now apply IH.
Qed.

Lemma extractCandidates_Return (candidates : list Candidate) (images : list ImageResult)
    (pre post : list InlineData) (inline : InlineData) (err : error) :
  inlineParts {| Candidates := candidates; PromptFeedback_ := None |}
    = (pre ++ inline :: post)%list →
  Forall decodable pre →
  snd (base64_DecodeString (InlineData_Data inline)) = Some err →
  extractCandidates candidates images = Return (Errorf_w "decode image data: " err).
Proof.
  unfold inlineParts. simpl.
  revert images pre. induction candidates as [|candidate rest IH];
    intros images pre E D F; simpl in *.
  - now destruct pre.
  - destruct (Candidate_Content candidate) as [content|]; simpl in *;
      [|now apply (IH _ pre)].
    set (here := omap Part_InlineData (Content_Parts content)) in *.
    destruct (decide (length here ≤ length pre)%nat) as [L|L].
    + (* the failing part is in a later candidate *)
      assert (T : here = take (length here) pre ∧
                  flat_map (λ candidate0 : Candidate,
                      match Candidate_Content candidate0 with
                      | Some content0 => omap Part_InlineData (Content_Parts content0)
                      | None => []
                      end) rest = (drop (length here) pre ++ inline :: post)%list).
      { apply (f_equal (take (length here))) in E as E1.
        apply (f_equal (drop (length here))) in E as E2.
        rewrite take_app_length in E1. rewrite drop_app_length in E2.
        rewrite take_app_le in E1 by exact L. rewrite drop_app_le in E2 by exact L.
        now split. }
      destruct T as [T1 T2].
      rewrite <- (take_drop (length here) pre) in D. apply Forall_app in D as [D1 D2].
      rewrite <- T1 in D1. rewrite (extractParts_Continue _ _ D1).
      now apply (IH _ (drop (length here) pre)).
    + (* the failing part is in this candidate *)
      assert (T : here = (pre ++ inline :: take (length here - S (length pre)) post)%list).
      { apply (f_equal (take (length here))) in E.
        rewrite take_app_length in E. rewrite take_app_ge in E by lia.
        replace (length here - length pre)%nat
          with (S (length here - S (length pre))) in E by lia.
        exact E. }
      now rewrite (extractParts_Return _ _ _ _ _ _ T D F).
Qed.

End ExtractFacts.

(* ===================================================================== *)
(** * The response classifier *)
(* ===================================================================== *)

Lemma doRequest_delivered `{Lib} (c : Client) (req : GenerateRequest) (status : Z)
    (respBody : list byte) :
  delivers c req status respBody →
  doRequest c req =
    if negb (Z.eqb status 200) then
      ([], Some (ApiErr (parseAPIError status respBody)))
    else
      match json_Unmarshal_GenerateResponse respBody with
      | (_, Some err) => ([], Some (Errorf_w "parse response: " err))
      | (genResp, None) =>
          match PromptFeedback_ genResp with
          | Some feedback =>
              if negb (String.eqb (BlockReason feedback) "") then
                ([], Some (ApiErr {| APIError_StatusCode := 0;
                                     APIError_Message :=
                                       "prompt blocked: " +:+ BlockReason feedback;
                                     APIError_ExitCode := ExitAPI |}))
              else extractImages genResp
          | None => extractImages genResp
          end
      end.
Proof.
  intros (body & httpReq & resp & M & N & D & S & R).
  unfold doRequest. rewrite M, N, D, R, S. reflexivity.
Qed.

(** C1: on a 200 response whose body parses and whose prompt feedback has a
    non-empty block reason, [doRequest] returns no images and the [*APIError]
    with status 0, the message [prompt blocked: <reason>] and the api exit
    code 5, whatever the candidates hold. *)
Theorem C1_blocked_prompt `{Lib} (c : Client) (req : GenerateRequest)
    (respBody : list byte) (genResp : GenerateResponse) (feedback : PromptFeedback) :
  delivers c req 200 respBody →
  json_Unmarshal_GenerateResponse respBody = (genResp, None) →
  PromptFeedback_ genResp = Some feedback →
  BlockReason feedback ≠ "" →
  doRequest c req =
    ([], Some (ApiErr {| APIError_StatusCode := 0;
                         APIError_Message := "prompt blocked: " +:+ BlockReason feedback;
                         APIError_ExitCode := 5 |})).
Proof.
  intros D J F B. rewrite (doRequest_delivered _ _ _ _ D). simpl.
  rewrite J, F. apply String.eqb_neq in B. now rewrite B.
Qed.

Lemma C1_blocked_prompt_witness :
  inlineParts blockedResponse ≠ [] ∧
  @doRequest blockedLib testClient (Generate_request "test") =
    ([], Some (ApiErr {| APIError_StatusCode := 0;
                         APIError_Message := "prompt blocked: SAFETY";
                         APIError_ExitCode := 5 |})).
Proof.
  split; [discriminate|].
  apply (@C1_blocked_prompt blockedLib testClient (Generate_request "test")
           (bytes "{...}") blockedResponse
           {| BlockReason := "SAFETY"; PromptFeedback_SafetyRatings := [] |}).
  - eexists _, _, _. repeat split; reflexivity.
  - reflexivity.
  - reflexivity.
  - discriminate.
Defined.

(** C8, as the code has it: on a 200 response whose body does not parse,
    [doRequest] returns no images and the error of [fmt.Errorf]: its message
    is [parse response: ] followed by the decoder's message, it wraps the
    decoder's error, and it is not an [*APIError], so it carries no exit code
    and no status; [handleAPIError] gives it the general exit code 1. *)
Theorem C8_parse_failure `{Lib} (c : Client) (req : GenerateRequest)
    (respBody : list byte) (genResp : GenerateResponse) (err : error) :
  delivers c req 200 respBody →
  json_Unmarshal_GenerateResponse respBody = (genResp, Some err) →
  doRequest c req = ([], Some (WrapErr ("parse response: " +:+ Error err) err)) ∧
  mentions ("parse response: " +:+ Error err) "parse response" ∧
  handleAPIError (WrapErr ("parse response: " +:+ Error err) err)
    = exitError 1 ("parse response: " +:+ Error err).
Proof.
  intros D J. rewrite (doRequest_delivered _ _ _ _ D). simpl. rewrite J.
  split; [reflexivity|]. split; [|reflexivity].
  exists "", (": " +:+ Error err). reflexivity.
Qed.

Lemma C8_parse_failure_witness :
  @doRequest malformedLib testClient (Generate_request "test") =
    ([], Some (WrapErr "parse response: invalid character 'o' in literal null (expecting 'u')"
                       (LibErr "invalid character 'o' in literal null (expecting 'u')"))).
Proof.
  apply (@C8_parse_failure malformedLib testClient (Generate_request "test") (bytes "not json")
           {| Candidates := []; PromptFeedback_ := None |}
           (LibErr "invalid character 'o' in literal null (expecting 'u')")).
  - eexists _, _, _. repeat split; reflexivity.
  - reflexivity.
Defined.

(** C8, as the specification has it, fails: the server answers 200 with the
    body [not json], the body does not parse, and the error [doRequest]
    returns is no [*APIError] at all, so none with the general exit code. *)
Lemma C8_counterexample :
  @delivers malformedLib testClient (Generate_request "test") 200 (bytes "not json") ∧
  snd (@json_Unmarshal_GenerateResponse malformedLib (bytes "not json")) ≠ None ∧
  ¬ ∃ e : APIError,
      snd (@doRequest malformedLib testClient (Generate_request "test")) = Some (ApiErr e) ∧
      APIError_ExitCode e = ExitGeneral ∧
      mentions (APIError_Message e) "parse response".
Proof.
  split; [|split].
  - eexists _, _, _. repeat split; reflexivity.
  - discriminate.
  - intros (e & E & _). vm_compute in E. discriminate.
Qed.

(** C3: for a status other than 200 and any body, [parseAPIError] keeps the
    status and gives the exit code auth (3) for 401 and 403, rate-limit (4)
    for 429, api (5) from 500 on and api (5) for every other status. The
    message is the one that decoding leaves in the envelope, whether or not
    the decoder reports an error, and [API error (HTTP <status>)] exactly
    when decoding leaves none; the status-specific rewriting is applied to
    it afterwards. *)
Theorem C3_parseAPIError `{Lib} (statusCode : Z) (body : list byte) :
  statusCode ≠ 200 →
  let e := parseAPIError statusCode body in
  let decoded := ErrorResponse_Message (fst (json_Unmarshal_ErrorResponse body)) in
  APIError_StatusCode e = statusCode ∧
  (statusCode = 401 ∨ statusCode = 403 → APIError_ExitCode e = 3) ∧
  (statusCode = 429 → APIError_ExitCode e = 4) ∧
  ((500 ≤ statusCode)%Z → APIError_ExitCode e = 5) ∧
  (statusCode ≠ 401 → statusCode ≠ 403 → statusCode ≠ 429 → APIError_ExitCode e = 5) ∧
  (decoded = "" →
     APIError_Message e
     = rewritten statusCode ("API error (HTTP " +:+ itoa statusCode +:+ ")")) ∧
  (decoded ≠ "" → APIError_Message e = rewritten statusCode decoded).
Proof.
  intros _ e decoded. subst e. unfold parseAPIError, rewritten. fold decoded.
  destruct (Z.eqb_spec statusCode 401) as [->|N1]; simpl.
  { repeat split; try reflexivity; try lia.
    - intros ->. reflexivity.
    - intros D. apply String.eqb_neq in D. now rewrite D. }
  destruct (Z.eqb_spec statusCode 403) as [->|N2]; simpl.
  { repeat split; try reflexivity; try lia.
    - intros ->. reflexivity.
    - intros D. apply String.eqb_neq in D. now rewrite D. }
  destruct (decide (statusCode = 401 ∨ statusCode = 403)) as [[?|?]|_]; [lia|lia|].
  destruct (Z.eqb_spec statusCode 429) as [->|N3]; simpl.
  { repeat split; try reflexivity; try lia.
    - intros ->. reflexivity.
    - intros D. apply String.eqb_neq in D. now rewrite D. }
  destruct (decide (statusCode = 429)) as [?|_]; [lia|].
  destruct (Z.leb_spec 500 statusCode) as [L|L]; simpl.
  - destruct (decide (500 ≤ statusCode)%Z) as [_|?]; [|lia].
    repeat split; try reflexivity; try lia.
    + intros ->. reflexivity.
    + intros D. apply String.eqb_neq in D. now rewrite D.
  - destruct (decide (500 ≤ statusCode)%Z) as [?|_]; [lia|].
    repeat split; try reflexivity; try lia.
    + intros ->. reflexivity.
    + intros D. apply String.eqb_neq in D. now rewrite D.
Qed.

Lemma C3_parseAPIError_witness :
  @parseAPIError serverErrorLib 500 (bytes "not json") =
    {| APIError_StatusCode := 500;
       APIError_Message :=
         "Gemini server error: API error (HTTP 500)" +:+ nl +:+ nl
           +:+ "This is a temporary issue. Try again shortly.";
       APIError_ExitCode := 5 |}.
Proof.
  pose proof (@C3_parseAPIError serverErrorLib 500 (bytes "not json")) as T.
  destruct T as (S & _ & _ & X & _ & M & _); [discriminate|].
  specialize (X ltac:(lia)). specialize (M eq_refl).
  destruct (@parseAPIError serverErrorLib 500 (bytes "not json")) as [st msg ex].
  simpl in S, X, M. subst st. subst ex. rewrite M. reflexivity.
Defined.

(** C3, as the specification has it, fails: the body is no well-formed
    error envelope, its [code] is a string and the decoder reports it, yet
    the message is the [boom] of the body and not the fallback. *)
Lemma C3_counterexample :
  snd (@json_Unmarshal_ErrorResponse mistypedLib mistypedBody) ≠ None ∧
  APIError_Message (@parseAPIError mistypedLib 400 mistypedBody) = "boom" ∧
  APIError_Message (@parseAPIError mistypedLib 400 mistypedBody) ≠ "API error (HTTP 400)" ∧
  APIError_ExitCode (@parseAPIError mistypedLib 400 mistypedBody) = 5%Z.
Proof.
  split; [discriminate|]. split; [reflexivity|]. split; [discriminate | reflexivity].
Qed.

(** What [doRequest] does with a response that is not a 200: it returns the
    classification of [parseAPIError] and no images. *)
Lemma doRequest_not_200 `{Lib} (c : Client) (req : GenerateRequest) (status : Z)
    (respBody : list byte) :
  delivers c req status respBody → status ≠ 200 →
  doRequest c req = ([], Some (ApiErr (parseAPIError status respBody))).
Proof.
  intros D N. rewrite (doRequest_delivered _ _ _ _ D).
  apply Z.eqb_neq in N. now rewrite N.
Qed.

(* ===================================================================== *)
(** * Extraction: the three outcomes *)
(* ===================================================================== *)

Lemma inlineParts_Candidates (resp : GenerateResponse) :
  inlineParts resp = inlineParts {| Candidates := Candidates resp; PromptFeedback_ := None |}.
Proof. reflexivity. Qed.

Lemma inlineParts_imageless (resp : GenerateResponse) :
  Forall imageless (Candidates resp) → inlineParts resp = [].
Proof.
  unfold inlineParts. induction 1 as [|candidate rest I _ IH]; simpl; [reflexivity|].
  rewrite IH, app_nil_r. unfold imageless in I.
  destruct (Candidate_Content candidate) as [content|]; [|reflexivity].
  induction I as [|part parts P _ IHp]; simpl; [reflexivity|].
  now rewrite P.
Qed.

(** C2: when the response has an inline-data part and every inline-data
    payload decodes, [extractImages] returns, without error, exactly the
    images of the inline-data parts (the decoded bytes with the part's MIME
    type), in candidate order and then part order; candidates without
    content and parts without inline data are passed over. *)
Theorem C2_extractImages_all `{Lib} (resp : GenerateResponse) :
  inlineParts resp ≠ [] →
  Forall decodable (inlineParts resp) →
  extractImages resp = (map imageOf (inlineParts resp), None) ∧
  length (fst (extractImages resp)) = length (inlineParts resp).
Proof.
  intros N D. rewrite inlineParts_Candidates in D.
  unfold extractImages. rewrite (extractCandidates_Continue _ _ D). simpl.
  rewrite <- inlineParts_Candidates.
  destruct (inlineParts resp) as [|inline rest]; [congruence|]. simpl.
  split; [reflexivity|]. now rewrite length_map.
Qed.

Lemma C2_extractImages_all_witness :
  @extractImages codecLib threeImages =
    ([ {| ImageResult_Data := bytes "img-a"; ImageResult_MIMEType := "image/png" |};
       {| ImageResult_Data := bytes "img-b"; ImageResult_MIMEType := "image/png" |};
       {| ImageResult_Data := bytes "img-c"; ImageResult_MIMEType := "image/jpeg" |} ], None).
Proof.
  refine (eq_trans (proj1 (@C2_extractImages_all codecLib threeImages _ _)) _).
  - discriminate.
  - repeat constructor.
  - reflexivity.
Defined.

(** C4: when no candidate contributes an inline-data part (no candidates,
    candidates without content, parts with text only), [extractImages]
    returns no images and the [*APIError] with status 0, the message
    [no images in response] and the api exit code 5. *)
Theorem C4_no_images `{Lib} (resp : GenerateResponse) :
  Forall imageless (Candidates resp) →
  extractImages resp =
    ([], Some (ApiErr {| APIError_StatusCode := 0;
                         APIError_Message := "no images in response";
                         APIError_ExitCode := 5 |})) ∧
  mentions (Error (ApiErr {| APIError_StatusCode := 0;
                            APIError_Message := "no images in response";
                            APIError_ExitCode := 5 |})) "no images in response".
Proof.
  intros I. apply inlineParts_imageless in I.
  unfold extractImages.
  rewrite (extractCandidates_Continue (Candidates resp) []);
    rewrite <- inlineParts_Candidates, I; [|constructor].
  split; [reflexivity|]. exists "", "". reflexivity.
Qed.

Lemma C4_no_images_witness :
  @extractImages codecLib refusal =
    ([], Some (ApiErr {| APIError_StatusCode := 0;
                         APIError_Message := "no images in response";
                         APIError_ExitCode := 5 |})) ∧
  @extractImages codecLib {| Candidates := []; PromptFeedback_ := None |} =
    ([], Some (ApiErr {| APIError_StatusCode := 0;
                         APIError_Message := "no images in response";
                         APIError_ExitCode := 5 |})).
Proof.
  split.
  - apply (@C4_no_images codecLib refusal). repeat constructor.
  - apply (@C4_no_images codecLib {| Candidates := []; PromptFeedback_ := None |}).
    constructor.
Defined.

(** C5, as the code has it: when some inline-data payload does not decode,
    [extractImages] stops at the first such part, in candidate order then part
    order, and returns no images, not even those already decoded, with the
    error of [fmt.Errorf]: its message is [decode image data: ] followed by
    the decoder's message, it wraps the decoder's error, and it is not an
    [*APIError], so it carries no exit code; [handleAPIError] gives it the
    general exit code 1. The function returns: it is total. *)
Theorem C5_decode_failure `{Lib} (resp : GenerateResponse) :
  Exists (λ inline, ¬ decodable inline) (inlineParts resp) →
  ∃ pre inline post err,
    inlineParts resp = (pre ++ inline :: post)%list ∧
    Forall decodable pre ∧
    snd (base64_DecodeString (InlineData_Data inline)) = Some err ∧
    extractImages resp
      = ([], Some (WrapErr ("decode image data: " +:+ Error err) err)) ∧
    mentions ("decode image data: " +:+ Error err) "decode image data" ∧
    handleAPIError (WrapErr ("decode image data: " +:+ Error err) err)
      = exitError 1 ("decode image data: " +:+ Error err).
Proof.
  intros X.
  assert (S : ∃ pre inline post,
             inlineParts resp = (pre ++ inline :: post)%list ∧
             Forall decodable pre ∧ ¬ decodable inline).
  { induction X as [inline rest N | inline rest _ IH].
    - exists [], inline, rest. repeat split; [constructor | exact N].
    - destruct (snd (base64_DecodeString (InlineData_Data inline))) as [err|] eqn:E.
      + exists [], inline, rest. repeat split; [constructor|].
        unfold decodable. now rewrite E.
      + destruct IH as (pre & x & post & -> & D & N).
        exists (inline :: pre), x, post. repeat split; [|exact N].
        constructor; [exact E | exact D]. }
  destruct S as (pre & inline & post & E & D & N).
  unfold decodable in N.
  destruct (snd (base64_DecodeString (InlineData_Data inline))) as [err|] eqn:F;
    [|congruence].
  exists pre, inline, post, err. repeat split; try assumption.
  - unfold extractImages. rewrite inlineParts_Candidates in E.
    now rewrite (extractCandidates_Return _ _ _ _ _ _ E D F).
  - exists "", (": " +:+ Error err). reflexivity.
Qed.

Lemma C5_decode_failure_witness :
  ∃ pre inline post err,
    @inlineParts malformedImage = (pre ++ inline :: post)%list ∧
    Forall (@decodable codecLib) pre ∧
    snd (@base64_DecodeString codecLib (InlineData_Data inline)) = Some err ∧
    @extractImages codecLib malformedImage
      = ([], Some (WrapErr ("decode image data: " +:+ Error err) err)) ∧
    mentions ("decode image data: " +:+ Error err) "decode image data" ∧
    handleAPIError (WrapErr ("decode image data: " +:+ Error err) err)
      = exitError 1 ("decode image data: " +:+ Error err).
Proof.
  apply (@C5_decode_failure codecLib malformedImage).
  apply Exists_cons_tl, Exists_cons_hd. discriminate.
Defined.

(** C5, as the specification has it, fails: the second payload of
    [malformedImage] is not base 64, and the error [extractImages] returns is
    no [*APIError], with whatever exit code. *)
Lemma C5_counterexample :
  Exists (λ inline, ¬ @decodable codecLib inline) (inlineParts malformedImage) ∧
  @extractImages codecLib malformedImage =
    ([], Some (WrapErr "decode image data: illegal base64 data at input byte 0"
                       (LibErr "illegal base64 data at input byte 0"))) ∧
  ¬ ∃ e : APIError,
      snd (@extractImages codecLib malformedImage) = Some (ApiErr e) ∧
      (APIError_ExitCode e = ExitGeneral ∨ APIError_ExitCode e = ExitAPI) ∧
      mentions (APIError_Message e) "decode image data".
Proof.
  split; [|split].
  - apply Exists_cons_tl, Exists_cons_hd. discriminate.
  - reflexivity.
  - intros (e & E & _). vm_compute in E. discriminate.
Qed.

(* ===================================================================== *)
(** * The request builder *)
(* ===================================================================== *)

Lemma ascii_lower_below (c : ascii) :
  (nat_of_ascii (lower_ascii c) <? 128)%nat = (nat_of_ascii c <? 128)%nat.
Proof. destruct c as [[] [] [] [] [] [] [] []]; reflexivity. Qed.

Lemma equalFold_isASCII (s t : string) :
  equalFold s t → isASCII t = true → isASCII s = true.
Proof.
  unfold equalFold. revert t. induction s as [|c s IH]; intros [|d t] E A; simpl in *;
    try reflexivity; try discriminate.
  injection E as E1 E2. apply andb_true_iff in A as [A1 A2].
  rewrite <- ascii_lower_below, E1, ascii_lower_below, A1. simpl. eauto.
Qed.

Lemma mimeTable_keys (ext mime : string) :
  (ext, mime) ∈ mimeTable → isASCII ext = true ∧ map_string lower_ascii ext = ext.
Proof.
  intros I. apply list_elem_of_In in I. simpl in I.
  repeat (destruct I as [I|I]; [injection I as <- <-; split; reflexivity|]).
  destruct I.
Qed.

Lemma detectMIMEType_lookup `{Lib} (path : string) :
  detectMIMEType path = lookupMIME mimeTable (strings_ToLower (filepath_Ext path)).
Proof.
  unfold detectMIMEType. simpl.
  destruct (String.eqb (strings_ToLower (filepath_Ext path)) ".png"); [reflexivity|].
  destruct (String.eqb (strings_ToLower (filepath_Ext path)) ".jpg"); [reflexivity|].
  simpl.
  destruct (String.eqb (strings_ToLower (filepath_Ext path)) ".jpeg"); reflexivity.
Qed.

(** C10: for a path whose file is read, [GenerateWithImage] sends a request
    whose inline-data part carries the file in base 64 and, as MIME type,
    the entry of the table for the extension of the path lowered by
    [strings.ToLower], [image/png] when the table has none. For an
    extension of ASCII bytes this is the match without regard to case:
    [.png], [.jpg], [.jpeg], [.gif], [.webp] and [.bmp] up to case have the
    MIME type of the table, any other such extension, or none, has
    [image/png]. An extension with a byte above 127 has the MIME type of an
    entry exactly when the Unicode lowering maps it onto that entry, and
    [image/png] otherwise. *)
Theorem C10_detectMIMEType `{Lib} `{OS} (c : Client) (s : fs) (prompt path : string)
    (data : list byte) :
  os_ReadFile s path = (data, None) →
  let mime := lookupMIME mimeTable (strings_ToLower (filepath_Ext path)) in
  let req := GenerateWithImage_request prompt (base64_EncodeToString data) mime in
  GenerateWithImage c s prompt path = doRequest c req ∧
  Contents req
  = [ {| Content_Role := "user";
         Content_Parts :=
           [ {| Part_Text := prompt; Part_InlineData := None |};
             {| Part_Text := "";
                Part_InlineData :=
                  Some {| InlineData_MIMEType := mime;
                          InlineData_Data := base64_EncodeToString data |} |} ] |} ] ∧
  (∀ ext m, (ext, m) ∈ mimeTable → equalFold (filepath_Ext path) ext → mime = m) ∧
  (isASCII (filepath_Ext path) = true →
   (∀ ext m, (ext, m) ∈ mimeTable → ¬ equalFold (filepath_Ext path) ext) →
   mime = "image/png") ∧
  (filepath_Ext path = "" → mime = "image/png") ∧
  (isASCII (filepath_Ext path) = false →
   (∀ ext m, (ext, m) ∈ mimeTable → unicode_ToLower (filepath_Ext path) = ext → mime = m) ∧
   ((∀ ext m, (ext, m) ∈ mimeTable → unicode_ToLower (filepath_Ext path) ≠ ext) →
    mime = "image/png")).
Proof.
  intros R mime req. subst req mime.
  assert (T : ∀ lowered ext m, (ext, m) ∈ mimeTable → lowered = ext →
                               lookupMIME mimeTable lowered = m).
  { intros lowered ext m I ->. apply list_elem_of_In in I. simpl in I.
    repeat (destruct I as [I|I]; [injection I as <- <-; reflexivity|]).
    destruct I. }
  assert (D : ∀ lowered, (∀ ext m, (ext, m) ∈ mimeTable → lowered ≠ ext) →
                         lookupMIME mimeTable lowered = "image/png").
  { intros lowered N.
    assert (K : ∀ ext m, (ext, m) ∈ mimeTable → String.eqb lowered ext = false).
    { intros ext m I. apply String.eqb_neq. exact (N ext m I). }
    simpl.
    rewrite (K ".png" "image/png"), (K ".jpg" "image/jpeg"), (K ".jpeg" "image/jpeg"),
      (K ".gif" "image/gif"), (K ".webp" "image/webp"), (K ".bmp" "image/bmp");
      try reflexivity; apply list_elem_of_In; simpl; tauto. }
  split; [|split; [reflexivity|]].
  { unfold GenerateWithImage, readImageFile. rewrite R, detectMIMEType_lookup.
    reflexivity. }
  split; [|split; [|split]].
  - intros ext m I E. destruct (mimeTable_keys _ _ I) as [A L].
    apply (T _ ext m I). unfold strings_ToLower.
    rewrite (equalFold_isASCII _ _ E A). unfold equalFold in E. now rewrite E, L.
  - intros A N. apply D. intros ext m I E. apply (N ext m I).
    unfold strings_ToLower in E. rewrite A in E.
    unfold equalFold. destruct (mimeTable_keys _ _ I) as [_ L]. now rewrite L.
  - intros E. unfold strings_ToLower. rewrite E. reflexivity.
  - intros A. unfold strings_ToLower. rewrite A. split.
    + intros ext m I E. exact (T _ ext m I E).
    + exact (D _).
Qed.

Lemma C10_detectMIMEType_witness :
  @os_ReadFile workOS onePhoto "photo.JPG" = (bytes "hello", None) ∧
  @GenerateWithImage codecLib workOS testClient onePhoto "make it blue" "photo.JPG"
  = @doRequest codecLib testClient
      (GenerateWithImage_request "make it blue" "aGVsbG8=" "image/jpeg").
Proof.
  split; [reflexivity|].
  destruct (@C10_detectMIMEType codecLib workOS testClient onePhoto "make it blue"
              "photo.JPG" (bytes "hello") eq_refl) as (G & _ & T & _).
  rewrite (T ".jpg" "image/jpeg") in G; [exact G | | reflexivity].
  apply list_elem_of_In. simpl. tauto.
Defined.

(** C10, as the specification has it, fails: the extension [.G], U+0130,
    [F] is none of the table up to case, and the file is sent as
    [image/gif], not as [image/png], because the lowering maps U+0130 to
    the letter [i]. *)
Lemma C10_counterexample :
  filepath_Ext dottedName = ".G" +:+ dottedI +:+ "F" ∧
  Forall (λ entry, ¬ equalFold (filepath_Ext dottedName) (fst entry)) mimeTable ∧
  @readImageFile dottedLib workOS dottedPhoto dottedName
  = ("aGVsbG8=", "image/gif", None) ∧
  @GenerateWithImage dottedLib workOS testClient dottedPhoto "make it blue" dottedName
  = @doRequest dottedLib testClient
      (GenerateWithImage_request "make it blue" "aGVsbG8=" "image/gif") ∧
  "image/gif" ≠ "image/png".
Proof.
  split; [reflexivity|]. split.
  { repeat constructor; intros E; vm_compute in E; discriminate E. }
  split; [reflexivity|]. split; [reflexivity | discriminate].
Qed.



(* ===================================================================== *)
(** * The output writer *)
(* ===================================================================== *)

Section NameFacts.





End NameFacts.

Section WriterFacts.
Context `{OS}.

Lemma not_free (s : fs) (path : string) :
  ¬ free s path ↔ os_IsNotExist (os_Stat s path) = false.
Proof. unfold free. destruct (os_IsNotExist (os_Stat s path)); split; congruence. Qed.






(** The steps of a call of [WriteImage] that returns without error. *)
Lemma WriteImage_inv (s s' : fs) (data : list byte) (mimeType outputPath command : string)
    (index : Z) (r : string) :
  WriteImage s data mimeType outputPath command index = (s', (r, None)) →
  ∃ s1, ensureDir s (indexedPath s mimeType outputPath command index) = (s1, None) ∧
        os_WriteFile s1 (dedup s1 (indexedPath s mimeType outputPath command index)) data
          = (s', None) ∧
        r = reported (dedup s1 (indexedPath s mimeType outputPath command index)).
Proof.
  unfold WriteImage, reported.
  destruct (ensureDir s _) as [s1 [e|]] eqn:D; [discriminate|].
  destruct (os_WriteFile s1 _ data) as [s2 [e|]] eqn:W; [discriminate|].
  intros E. exists s1. split; [reflexivity|].
  destruct (filepath_Abs _) as [absPath [e|]]; injection E as <- <-; split;
    solve [exact W | reflexivity].
Qed.


(** The first block of [WriteImage], for a requested path and an index whose
    successor is an [int]. *)
Lemma indexedPath_requested (s : fs) (mimeType outputPath command : string) (index : Z) :
  outputPath ≠ "" → (index < 2 ^ 63 - 1)%Z →
  indexedPath s mimeType outputPath command index = indexedName outputPath index.
Proof.
  intros N R. unfold indexedPath, indexedName.
  apply String.eqb_neq in N. rewrite N.
  destruct (Z.ltb_spec 0 index) as [P|P]; destruct (decide (0 < index)%Z); try lia;
    [|reflexivity].
  unfold candidate, int_add, wrap64. f_equal.
  rewrite Z.mod_small by lia. lia.
Qed.

End WriterFacts.

(** The file system of the tests obeys the laws, and its directories are
    apart from every file. *)
Lemma memOS_laws (cwd : option string) : @OSLaws (memOS cwd).
Proof.
  split; simpl; unfold mem_WriteFile, mem_ReadFile, mem_Stat.
  - intros s path data s' E. injection E as <-. simpl. now rewrite lookup_insert_eq.
  - intros s path data s' E. injection E as <-. simpl. now rewrite lookup_insert_eq.
  - intros s path data s' q E N. injection E as <-. simpl.
    now rewrite lookup_insert_ne by congruence.
Qed.




Section SequenceFacts.
Context `{OS} `{!OSLaws}.






End SequenceFacts.




(** Why [N] stays below 2^63: at the last [int] the successor wraps. *)
Example WriteImage_index_wraps :
  snd (@WriteImage workOS emptyFS (bytes "x") "image/png" "foo.png" "edit" (2 ^ 63 - 1))
  = ("/work/foo--9223372036854775808.png", None).
Proof. reflexivity. Qed.

(* ===================================================================== *)
(** * The pipeline as its callers see it *)
(* ===================================================================== *)

Section PipelineFacts.
Context `{Lib}.

Lemma append_nonempty (a c : string) : a ≠ "" → a +:+ c ≠ "".
Proof.
  intros N E. apply (f_equal String.length) in E. rewrite append_length in E.
  destruct a; [congruence | simpl in E; lia].
Qed.

Lemma decodable_dec (inline : InlineData) : {decodable inline} + {¬ decodable inline}.
Proof.
  unfold decodable. destruct (snd (base64_DecodeString (InlineData_Data inline)));
    [right; discriminate | left; reflexivity].
Qed.

(** The first payload that does not decode, when there is one. *)
Lemma first_undecodable (parts : list InlineData) :
  Exists (λ inline, ¬ decodable inline) parts →
  ∃ pre inline post err,
    parts = (pre ++ inline :: post)%list ∧ Forall decodable pre ∧
    snd (base64_DecodeString (InlineData_Data inline)) = Some err.
Proof.
  induction 1 as [inline rest N | inline rest _ IH].
  - unfold decodable in N.
    destruct (snd (base64_DecodeString (InlineData_Data inline))) as [err|] eqn:E;
      [|congruence].
    exists [], inline, rest, err. repeat split; [constructor | exact E].
  - destruct (decodable_dec inline) as [D|N].
    + destruct IH as (pre & x & post & err & -> & Dp & E).
      exists (inline :: pre), x, post, err. repeat split; [|exact E].
      now constructor.
    + unfold decodable in N.
      destruct (snd (base64_DecodeString (InlineData_Data inline))) as [err|] eqn:E;
        [|congruence].
      exists [], inline, rest, err. repeat split; [constructor | exact E].
Qed.

(** What [extractImages] returns, in every case. *)
Lemma extractImages_cases (resp : GenerateResponse) :
  (inlineParts resp ≠ [] ∧ Forall decodable (inlineParts resp) ∧
   extractImages resp = (map imageOf (inlineParts resp), None)) ∨
  (inlineParts resp = [] ∧
   extractImages resp =
     ([], Some (ApiErr {| APIError_StatusCode := 0;
                          APIError_Message := "no images in response";
                          APIError_ExitCode := ExitAPI |}))) ∨
  (∃ err, extractImages resp = ([], Some (Errorf_w "decode image data: " err))).
Proof.
  destruct (Forall_Exists_dec decodable (λ inline, ¬ decodable inline) decodable_dec
              (inlineParts resp)) as [D|X].
  - pose proof D as D'. rewrite inlineParts_Candidates in D'.
    unfold extractImages. rewrite (extractCandidates_Continue _ _ D'). simpl.
    rewrite <- inlineParts_Candidates.
    destruct (inlineParts resp) as [|inline rest] eqn:E.
    + right. left. split; reflexivity.
    + left. split; [discriminate|]. split; [exact D | reflexivity].
  - right. right. apply first_undecodable in X as (pre & inline & post & err & E & D & F).
    exists err. unfold extractImages. rewrite inlineParts_Candidates in E.
    now rewrite (extractCandidates_Return _ _ _ _ _ _ E D F).
Qed.

(** What [doRequest] returns when the transport does not deliver. *)
Lemma doRequest_cases (c : Client) (req : GenerateRequest) :
  (∃ status respBody, delivers c req status respBody) ∨
  (∃ prefix err,
     doRequest c req = ([], Some (Errorf_w prefix err)) ∧
     (prefix = "marshal request: " ∨ prefix = "create request: " ∨
      prefix = "api request failed: " ∨ prefix = "read response: ")).
Proof.
  unfold doRequest, delivers.
  destruct (json_Marshal req) as [body [e|]] eqn:M.
  { right. exists "marshal request: ", e. split; [reflexivity | tauto]. }
  destruct (http_NewRequest _ _ body) as [httpReq [e|]] eqn:N.
  { right. exists "create request: ", e. split; [reflexivity | tauto]. }
  destruct (http_Do _) as [resp [e|]] eqn:D.
  { right. exists "api request failed: ", e. split; [reflexivity | tauto]. }
  destruct (Resp_Body resp) as [respBody [e|]] eqn:R.
  { right. exists "read response: ", e. split; [reflexivity | tauto]. }
  left. exists (Resp_StatusCode resp), respBody, body, httpReq, resp. repeat split; assumption.
Qed.

Lemma parseAPIError_code (statusCode : Z) (body : list byte) :
  APIError_ExitCode (parseAPIError statusCode body)
  = if decide (statusCode = 401 ∨ statusCode = 403) then ExitAuth
    else if decide (statusCode = 429) then ExitRateLimit else ExitAPI.
Proof.
  unfold parseAPIError.
  destruct (Z.eqb_spec statusCode 401), (Z.eqb_spec statusCode 403),
    (Z.eqb_spec statusCode 429), (Z.leb_spec 500 statusCode); simpl;
    repeat case_decide; try reflexivity; lia.
Qed.

Lemma parseAPIError_message (statusCode : Z) (body : list byte) :
  APIError_Message (parseAPIError statusCode body) ≠ "".
Proof.
  unfold parseAPIError.
  set (decoded := ErrorResponse_Message (fst (json_Unmarshal_ErrorResponse body))).
  assert (M : (if String.eqb decoded "" then "API error (HTTP " +:+ itoa statusCode +:+ ")"
               else decoded) ≠ "").
  { destruct (String.eqb_spec decoded ""); [|assumption].
    apply append_nonempty. discriminate. }
  destruct (Z.eqb statusCode 401 || Z.eqb statusCode 403); simpl;
    [apply append_nonempty; discriminate|].
  destruct (Z.eqb statusCode 429); simpl; [apply append_nonempty; discriminate|].
  destruct (Z.leb 500 statusCode); simpl; [apply append_nonempty; discriminate|].
  exact M.
Qed.

(** Every error of [doRequest]: its kind, and that it comes with no image. *)
Lemma doRequest_error (c : Client) (req : GenerateRequest) (err : error) :
  snd (doRequest c req) = Some err →
  fst (doRequest c req) = [] ∧
  Error err ≠ "" ∧
  ((∃ prefix cause, err = Errorf_w prefix cause ∧ prefix ≠ "") ∨
   (∃ e, err = ApiErr e ∧
         (APIError_ExitCode e = ExitAuth ∨ APIError_ExitCode e = ExitRateLimit ∨
          APIError_ExitCode e = ExitAPI))).
Proof.
  assert (W : ∀ prefix cause, prefix ≠ "" →
              Error (Errorf_w prefix cause) ≠ "" ∧
              ((∃ prefix0 cause0, Errorf_w prefix cause = Errorf_w prefix0 cause0 ∧
                                  prefix0 ≠ "") ∨
               (∃ e, Errorf_w prefix cause = ApiErr e ∧
                     (APIError_ExitCode e = ExitAuth ∨
                      APIError_ExitCode e = ExitRateLimit ∨
                      APIError_ExitCode e = ExitAPI)))).
  { intros prefix cause N. split; [now apply append_nonempty|]. left. eauto. }
  destruct (doRequest_cases c req) as [(status & respBody & D) | (prefix & cause & E & P)].
  - rewrite (doRequest_delivered _ _ _ _ D).
    destruct (negb (Z.eqb status 200)).
    { simpl. intros [= <-]. split; [reflexivity|]. split; [apply parseAPIError_message|].
      right. eexists. split; [reflexivity|]. rewrite parseAPIError_code.
      repeat case_decide; tauto. }
    destruct (json_Unmarshal_GenerateResponse respBody) as [genResp [e|]].
    { simpl. intros [= <-]. split; [reflexivity|]. now apply W. }
    assert (X : ∀ e0, snd (extractImages genResp) = Some e0 →
                fst (extractImages genResp) = [] ∧ Error e0 ≠ "" ∧
                ((∃ prefix cause, e0 = Errorf_w prefix cause ∧ prefix ≠ "") ∨
                 (∃ e, e0 = ApiErr e ∧
                       (APIError_ExitCode e = ExitAuth ∨
                        APIError_ExitCode e = ExitRateLimit ∨
                        APIError_ExitCode e = ExitAPI)))).
    { intros e0.
      destruct (extractImages_cases genResp) as [(_ & _ & ->) | [(_ & ->) | (e1 & ->)]];
        simpl; [discriminate | |].
      - intros [= <-]. split; [reflexivity|]. split; [discriminate|].
        right. eexists. split; [reflexivity | tauto].
      - intros [= <-]. split; [reflexivity|]. now apply W. }
    destruct (PromptFeedback_ genResp) as [feedback|]; [|apply X].
    destruct (negb (String.eqb (BlockReason feedback) "")); [|apply X].
    simpl. intros [= <-]. split; [reflexivity|].
    split; [apply append_nonempty; discriminate|].
    right. eexists. split; [reflexivity | tauto].
  - rewrite E. simpl. intros [= <-]. split; [reflexivity|]. apply W.
    destruct P as [-> | [-> | [-> | ->]]]; discriminate.
Qed.

End PipelineFacts.

Section PipelineTheorems.
Context `{Lib}.

Lemma doRequest_unblocked (c : Client) (req : GenerateRequest) (respBody : list byte)
    (genResp : GenerateResponse) :
  delivers c req 200 respBody →
  json_Unmarshal_GenerateResponse respBody = (genResp, None) →
  unblocked genResp →
  doRequest c req = extractImages genResp.
Proof.
  intros D J U. rewrite (doRequest_delivered _ _ _ _ D). simpl. rewrite J.
  destruct (PromptFeedback_ genResp) as [feedback|] eqn:F; [|reflexivity].
  rewrite (U feedback F). reflexivity.
Qed.

Lemma doRequest_success_inv (c : Client) (req : GenerateRequest)
    (images : list ImageResult) :
  doRequest c req = (images, None) →
  ∃ respBody genResp,
    delivers c req 200 respBody ∧
    json_Unmarshal_GenerateResponse respBody = (genResp, None) ∧
    unblocked genResp ∧
    inlineParts genResp ≠ [] ∧
    Forall decodable (inlineParts genResp) ∧
    images = map imageOf (inlineParts genResp).
Proof.
  intros E.
  destruct (doRequest_cases c req) as [(status & respBody & D) | (prefix & cause & E' & _)];
    [|rewrite E' in E; discriminate].
  rewrite (doRequest_delivered _ _ _ _ D) in E.
  destruct (Z.eqb_spec status 200) as [->|N]; simpl in E; [|discriminate].
  destruct (json_Unmarshal_GenerateResponse respBody) as [genResp [e|]] eqn:J;
    [discriminate|].
  exists respBody, genResp. split; [exact D|]. split; [exact J|].
  assert (X : extractImages genResp = (images, None) →
              inlineParts genResp ≠ [] ∧ Forall decodable (inlineParts genResp) ∧
              images = map imageOf (inlineParts genResp)).
  { destruct (extractImages_cases genResp) as [(N & A & ->) | [(_ & ->) | (e1 & ->)]];
      [|discriminate|discriminate].
    intros [= <-]. auto. }
  destruct (PromptFeedback_ genResp) as [feedback|] eqn:F.
  - destruct (String.eqb_spec (BlockReason feedback) "") as [B|B]; simpl in E;
      [|discriminate].
    split; [|now apply X]. intros feedback' Q.
    assert (feedback' = feedback) as -> by congruence. exact B.
  - split; [|now apply X]. intros feedback' Q. congruence.
Qed.

(** X1: [doRequest] returns images exactly when it returns no error, and
    then at least one: a result is never an error with images, and never a
    success without any. *)
Theorem X1_images_iff_no_error (c : Client) (req : GenerateRequest) :
  snd (doRequest c req) = None ↔ fst (doRequest c req) ≠ [].
Proof.
  destruct (doRequest c req) as [images [err|]] eqn:E; simpl.
  - pose proof (doRequest_error c req err) as X. rewrite E in X. simpl in X.
    destruct (X eq_refl) as [-> _]. split; [discriminate | congruence].
  - split; [|reflexivity]. intros _.
    apply doRequest_success_inv in E as (_ & genResp & _ & _ & _ & N & _ & ->).
    destruct (inlineParts genResp); [congruence | discriminate].
Qed.

(** X2: when [doRequest] fails, the error has a message that is not empty,
    [handleAPIError] keeps that message, and the exit code it gives is
    general (1), auth (3), rate-limit (4) or api (5): never 0, usage (2) or
    file-io (10). *)
Theorem X2_failure_exit_code (c : Client) (req : GenerateRequest) (err : error) :
  snd (doRequest c req) = Some err →
  Error err ≠ "" ∧
  message (handleAPIError err) = Error err ∧
  (code (handleAPIError err) = 1 ∨ code (handleAPIError err) = 3 ∨
   code (handleAPIError err) = 4 ∨ code (handleAPIError err) = 5).
Proof.
  intros E. destruct (doRequest_error c req err E) as (_ & M & K).
  split; [exact M|].
  destruct K as [(prefix & cause & -> & _) | (e & -> & K)]; simpl.
  - split; [reflexivity | now left].
  - split; [reflexivity|]. unfold ExitAuth, ExitRateLimit, ExitAPI in K. tauto.
Qed.

(** X3: [doRequest] succeeds exactly when the server answers 200 with a body
    that parses, the response is not blocked, it has an inline-data part and
    every inline-data payload decodes; the images are then those of the
    inline-data parts, in order. No image ever comes from another
    response. *)
Theorem X3_success_iff (c : Client) (req : GenerateRequest) (images : list ImageResult) :
  doRequest c req = (images, None) ↔
  ∃ respBody genResp,
    delivers c req 200 respBody ∧
    json_Unmarshal_GenerateResponse respBody = (genResp, None) ∧
    unblocked genResp ∧
    inlineParts genResp ≠ [] ∧
    Forall decodable (inlineParts genResp) ∧
    images = map imageOf (inlineParts genResp).
Proof.
  split; [apply doRequest_success_inv|].
  intros (respBody & genResp & D & J & U & N & A & ->).
  rewrite (doRequest_unblocked _ _ _ _ D J U).
  destruct (extractImages_cases genResp) as [(_ & _ & ->) | [(E & _) | (e1 & E)]];
    [reflexivity | congruence |].
  exfalso. rewrite inlineParts_Candidates in A.
  unfold extractImages in E. rewrite (extractCandidates_Continue _ _ A) in E.
  simpl in E. destruct (length _ =? 0)%nat; discriminate.
Qed.

(** X4: for a response that is not a 200, the error the CLI reports has the
    message of [parseAPIError] and an exit code that the status alone
    decides, whatever the body: 3 exactly for 401 and 403, 4 exactly for 429,
    5 for every other status. *)
Theorem X4_status_decides_exit (c : Client) (req : GenerateRequest) (status : Z)
    (respBody : list byte) :
  delivers c req status respBody → status ≠ 200 →
  ∃ err,
    doRequest c req = ([], Some err) ∧
    message (handleAPIError err) = APIError_Message (parseAPIError status respBody) ∧
    (code (handleAPIError err) = 3 ↔ status = 401 ∨ status = 403) ∧
    (code (handleAPIError err) = 4 ↔ status = 429) ∧
    (code (handleAPIError err) = 5 ↔ status ≠ 401 ∧ status ≠ 403 ∧ status ≠ 429) ∧
    (∀ body, code (handleAPIError err) = APIError_ExitCode (parseAPIError status body)).
Proof.
  intros D N. exists (ApiErr (parseAPIError status respBody)).
  split; [now apply doRequest_not_200|]. simpl. split; [reflexivity|].
  rewrite parseAPIError_code. unfold ExitAuth, ExitRateLimit, ExitAPI.
  repeat split; try (intros body; rewrite parseAPIError_code);
    repeat case_decide; try reflexivity; try lia; try tauto; intros; try lia.
Qed.

End PipelineTheorems.

Lemma X2_failure_exit_code_witness :
  snd (@doRequest unreachableLib testClient (Generate_request "a cat"))
  = Some (WrapErr
            "api request failed: dial tcp 127.0.0.1:8080: connect: connection refused"
            (LibErr "dial tcp 127.0.0.1:8080: connect: connection refused")) ∧
  code (handleAPIError
          (WrapErr
             "api request failed: dial tcp 127.0.0.1:8080: connect: connection refused"
             (LibErr "dial tcp 127.0.0.1:8080: connect: connection refused"))) = 1.
Proof.
  split; [reflexivity|].
  destruct (@X2_failure_exit_code unreachableLib testClient (Generate_request "a cat")
              (WrapErr
                 "api request failed: dial tcp 127.0.0.1:8080: connect: connection refused"
                 (LibErr "dial tcp 127.0.0.1:8080: connect: connection refused"))
              eq_refl) as (_ & _ & K).
  reflexivity.
Defined.

Lemma X3_success_iff_witness :
  @doRequest imagesLib testClient (Generate_request "a cat") =
    ([ {| ImageResult_Data := bytes "img-a"; ImageResult_MIMEType := "image/png" |};
       {| ImageResult_Data := bytes "img-b"; ImageResult_MIMEType := "image/png" |};
       {| ImageResult_Data := bytes "img-c"; ImageResult_MIMEType := "image/jpeg" |} ], None).
Proof.
  apply (proj2 (@X3_success_iff imagesLib testClient (Generate_request "a cat") _)).
  exists (bytes "{...}"), threeImages. split; [|split; [|split; [|split; [|split]]]].
  - eexists _, _, _. repeat split; reflexivity.
  - reflexivity.
  - intros feedback Q. discriminate.
  - discriminate.
  - repeat constructor.
  - reflexivity.
Defined.

Lemma X4_status_decides_exit_witness :
  ∃ err,
    @doRequest unauthorizedLib testClient (Generate_request "a cat") = ([], Some err) ∧
    code (handleAPIError err) = 3.
Proof.
  destruct (@X4_status_decides_exit unauthorizedLib testClient (Generate_request "a cat")
              401 (bytes "{...}")) as (err & E & _ & K & _).
  - eexists _, _, _. repeat split; reflexivity.
  - discriminate.
  - exists err. split; [exact E|]. apply K. now left.
Defined.

Section ImageRequestTheorems.
Context `{Lib} `{OS}.

(** X5: a failed [GenerateWithImage] has the exit code file-io (10) exactly
    when the image file could not be read; the error is then an [*APIError]
    with status 0 whose message names the quoted path and the cause, no
    image is returned, and the answer of the server plays no part. *)
Theorem X5_file_io_iff_unreadable (c : Client) (s : fs) (prompt imagePath : string)
    (err : error) :
  snd (GenerateWithImage c s prompt imagePath) = Some err →
  (code (handleAPIError err) = 10 ↔ snd (os_ReadFile s imagePath) ≠ None) ∧
  (∀ cause, snd (os_ReadFile s imagePath) = Some cause →
     GenerateWithImage c s prompt imagePath =
       ([], Some (ApiErr {| APIError_StatusCode := 0;
                            APIError_Message :=
                              "read image file " +:+ strconv_Quote imagePath +:+ ": "
                                +:+ Error cause;
                            APIError_ExitCode := 10 |}))).
Proof.
  unfold GenerateWithImage, readImageFile.
  destruct (os_ReadFile s imagePath) as [data [cause|]] eqn:R; simpl.
  - intros [= <-]. split; [|intros cause' [= <-]; reflexivity].
    simpl. split; [discriminate | reflexivity].
  - intros E. split; [|discriminate].
    destruct (doRequest_error _ _ _ E) as (_ & _ & K).
    split; [|congruence]. intros C. exfalso.
    destruct K as [(prefix & cause & -> & _) | (e & -> & K)]; simpl in C.
    + discriminate.
    + unfold ExitAuth, ExitRateLimit, ExitAPI in K. lia.
Qed.

End ImageRequestTheorems.

Lemma X5_file_io_iff_unreadable_witness :
  @GenerateWithImage codecLib workOS testClient emptyFS "make it blue" "missing.png" =
    ([], Some (ApiErr {| APIError_StatusCode := 0;
                         APIError_Message :=
                           "read image file " +:+ dq +:+ "missing.png" +:+ dq
                             +:+ ": open missing.png: no such file or directory";
                         APIError_ExitCode := 10 |})).
Proof.
  refine (proj2 (@X5_file_io_iff_unreadable codecLib workOS testClient emptyFS
                   "make it blue" "missing.png" _ eq_refl)
                (NotExistErr "open missing.png: no such file or directory") eq_refl).
Defined.

(* ===================================================================== *)
(** * Extensions *)
(* ===================================================================== *)

Section ExtFacts.

Lemma forallb_rev {A} (f : A → bool) (l : list A) : forallb f (rev l) = forallb f l.
Proof.
  induction l as [|x l IH]; simpl; [reflexivity|].
  rewrite forallb_app, IH. simpl. rewrite andb_true_r. apply andb_comm.
Qed.

Lemma ext_scan_plain (m r : list ascii) (acc : string) :
  forallb plain m = true →
  ext_scan (m ++ r) acc = ext_scan r (string_of_list_ascii (rev m) +:+ acc).
Proof.
  revert acc. induction m as [|c m IH]; intros acc P; simpl in *; [reflexivity|].
  apply andb_true_iff in P as [Pc Pm]. unfold plain in Pc.
  apply andb_true_iff in Pc as [P1 P2].
  apply negb_true_iff in P1. apply negb_true_iff in P2. rewrite P1, P2.
  rewrite (IH _ Pm), sl_app, append_assoc. reflexivity.
Qed.

Lemma ext_scan_empty (r : list ascii) (acc acc' : string) :
  ext_scan r acc = "" → ext_scan r acc' = "".
Proof.
  revert acc acc'. induction r as [|c r IH]; intros acc acc'; simpl; [reflexivity|].
  destruct (Ascii.eqb c slash); [reflexivity|].
  destruct (Ascii.eqb c dot); [discriminate|]. apply IH.
Qed.

Lemma ext_scan_shape (r : list ascii) (acc : string) :
  ext_scan r acc ≠ "" →
  ∃ m r', r = (m ++ dot :: r')%list ∧ forallb plain m = true ∧
          ext_scan r acc = String dot (string_of_list_ascii (rev m) +:+ acc).
Proof.
  revert acc. induction r as [|c r IH]; intros acc; simpl; [congruence|].
  destruct (Ascii.eqb c slash) eqn:S; [congruence|].
  destruct (Ascii.eqb_spec c dot) as [->|D].
  - intros _. exists [], r. repeat split.
  - intros N. destruct (IH _ N) as (m & r' & -> & P & E).
    exists (c :: m), r'. split; [reflexivity|]. split.
    + simpl. rewrite P. unfold plain. rewrite S.
      destruct (Ascii.eqb_spec c dot); [contradiction | reflexivity].
    + rewrite E. cbn [rev]. rewrite sl_app, append_assoc. reflexivity.
Qed.

Lemma ext_scan_dot (r : list ascii) (acc : string) :
  ext_scan (dot :: r) acc = String dot acc.
Proof. reflexivity. Qed.

Lemma la_rev_app (a c : string) :
  rev (list_ascii_of_string (a +:+ c))
  = (rev (list_ascii_of_string c) ++ rev (list_ascii_of_string a))%list.
Proof. now rewrite la_app, rev_app_distr. Qed.

(** An extension at the end of a name is the extension of the name. *)
Lemma Ext_ends (a e : string) :
  forallb plain (list_ascii_of_string e) = true →
  filepath_Ext (a +:+ String dot e) = String dot e.
Proof.
  intros P. unfold filepath_Ext. rewrite la_rev_app. cbn [list_ascii_of_string rev].
  rewrite <- app_assoc. rewrite ext_scan_plain by now rewrite forallb_rev.
  cbn [app]. rewrite ext_scan_dot.
  rewrite rev_involutive, string_of_list_ascii_of_string, append_nil_r. reflexivity.
Qed.

(** A name that plain bytes are appended to has an extension only if the
    bytes follow one. *)
Lemma Ext_none (a e : string) :
  forallb plain (list_ascii_of_string e) = true →
  filepath_Ext a = "" → filepath_Ext (a +:+ e) = "".
Proof.
  intros P N. unfold filepath_Ext in *. rewrite la_rev_app.
  rewrite ext_scan_plain by now rewrite forallb_rev.
  now apply (ext_scan_empty _ "").
Qed.

Lemma Ext_shape (path : string) :
  filepath_Ext path = "" ∨
  ∃ e, filepath_Ext path = String dot e ∧ forallb plain (list_ascii_of_string e) = true.
Proof.
  unfold filepath_Ext.
  destruct (string_dec (ext_scan (rev (list_ascii_of_string path)) "") "") as [E|N];
    [now left|].
  right. destruct (ext_scan_shape _ _ N) as (m & r' & _ & P & ->).
  exists (string_of_list_ascii (rev m)). rewrite append_nil_r. split; [reflexivity|].
  now rewrite list_ascii_of_string_of_list_ascii, forallb_rev.
Qed.

Lemma uint_plain (u : Decimal.uint) :
  forallb plain (list_ascii_of_string (NilEmpty.string_of_uint u)) = true.
Proof. induction u; simpl; try reflexivity; exact IHu. Qed.

(** [%d] writes digits and a minus sign only. *)
Lemma itoa_plain (n : Z) : forallb plain (list_ascii_of_string (itoa n)) = true.
Proof.
  unfold itoa, NilZero.string_of_int, NilZero.string_of_uint.
  destruct (Z.to_int n) as [u|u]; destruct u; simpl; try reflexivity; apply uint_plain.
Qed.

(** A suffix before the extension leaves the extension as it is. *)
Lemma Ext_candidate (path : string) (k : Z) :
  filepath_Ext (candidate path k) = filepath_Ext path.
Proof.
  unfold candidate, suffixed.
  destruct (Ext_shape path) as [E | (e & E & P)].
  - pose proof (Ext_split path) as S. rewrite E in *.
    rewrite append_nil_r in S. rewrite S.
    apply Ext_none; [|exact E].
    rewrite !la_app, !forallb_app, itoa_plain. reflexivity.
  - rewrite E. rewrite <- !append_assoc. now apply Ext_ends.
Qed.

End ExtFacts.

Section WriterOutcomes.
Context `{OS}.

Lemma generateFilename_Ext (s : fs) (command mimeType : string) (index : Z) :
  filepath_Ext (generateFilename s command mimeType index) = mimeTypeToExt mimeType.
Proof.
  unfold generateFilename, mimeTypeToExt.
  destruct (Z.ltb 0 index);
    destruct (String.eqb mimeType "image/png"), (String.eqb mimeType "image/jpeg"),
      (String.eqb mimeType "image/gif"), (String.eqb mimeType "image/webp");
    rewrite <- !append_assoc;
    first [ apply (Ext_ends _ "png") | apply (Ext_ends _ "jpg")
          | apply (Ext_ends _ "gif") | apply (Ext_ends _ "webp") ];
    reflexivity.
Qed.

(** The loop of [dedup], in every case. *)
Lemma dedup_loop_cases (s : fs) (path base ext : string) (n : nat) (i : Z) :
  (∃ k, (i ≤ k < i + Z.of_nat n)%Z ∧ free s (suffixed base k ext) ∧
        (∀ j, (i ≤ j < k)%Z → ¬ free s (suffixed base j ext)) ∧
        dedup_loop s path base ext i n = suffixed base k ext) ∨
  ((∀ j, (i ≤ j < i + Z.of_nat n)%Z → ¬ free s (suffixed base j ext)) ∧
   dedup_loop s path base ext i n = path).
Proof.
  revert i. induction n as [|n IH]; intros i.
  - right. split; [intros j J; lia | reflexivity].
  - simpl. destruct (os_IsNotExist (os_Stat s (suffixed base i ext))) eqn:F.
    + left. exists i. repeat split; [lia | lia | exact F | intros j J; lia].
    + destruct (IH (i + 1)%Z) as [(k & R & Fk & B & E) | (B & E)].
      * left. exists k. repeat split; [lia | lia | exact Fk | | exact E].
        intros j J. destruct (decide (j = i)) as [->|N]; [now apply not_free|].
        apply B. lia.
      * right. split; [|exact E]. intros j J.
        destruct (decide (j = i)) as [->|N]; [now apply not_free|]. apply B. lia.
Qed.

(** [dedup], in every case. *)
Lemma dedup_cases (s : fs) (path : string) :
  (free s path ∧ dedup s path = path) ∨
  (¬ free s path ∧
   ∃ k, (1 ≤ k ≤ 999)%Z ∧ free s (candidate path k) ∧
        (∀ j, (1 ≤ j < k)%Z → ¬ free s (candidate path j)) ∧
        dedup s path = candidate path k) ∨
  (¬ free s path ∧ (∀ j, (1 ≤ j ≤ 999)%Z → ¬ free s (candidate path j)) ∧
   dedup s path = path).
Proof.
  unfold dedup. destruct (os_IsNotExist (os_Stat s path)) eqn:F.
  - left. split; [exact F | reflexivity].
  - right. apply not_free in F.
    destruct (dedup_loop_cases s path (strings_TrimSuffix path (filepath_Ext path))
                (filepath_Ext path) 999 1) as [(k & R & Fk & B & E) | (B & E)].
    + left. split; [exact F|]. exists k. repeat split; [lia | lia | exact Fk | exact B | exact E].
    + right. split; [exact F|]. split; [|exact E]. intros j J. apply B. lia.
Qed.

Lemma dedup_Ext (s : fs) (path : string) : filepath_Ext (dedup s path) = filepath_Ext path.
Proof.
  destruct (dedup_cases s path) as [(_ & ->) | [(_ & k & _ & _ & _ & ->) | (_ & _ & ->)]];
    try reflexivity.
  apply Ext_candidate.
Qed.

Lemma indexedPath_Ext (s : fs) (mimeType outputPath command : string) (index : Z) :
  filepath_Ext (indexedPath s mimeType outputPath command index)
  = if String.eqb outputPath "" then mimeTypeToExt mimeType else filepath_Ext outputPath.
Proof.
  unfold indexedPath. destruct (String.eqb outputPath ""); [apply generateFilename_Ext|].
  destruct (Z.ltb 0 index); [|reflexivity].
  apply (Ext_candidate outputPath).
Qed.

(** X6: the file that a successful [WriteImage] writes has the extension of
    the requested path, or, when no path was requested, the extension of the
    MIME type ([.png], [.jpg], [.gif] or [.webp]): neither the index suffix
    nor the dedup suffix changes it, whatever the index. *)
Theorem X6_extension_kept (s s' : fs) (data : list byte)
    (mimeType outputPath command : string) (index : Z) (r : string) :
  WriteImage s data mimeType outputPath command index = (s', (r, None)) →
  ∃ s1 target,
    os_WriteFile s1 target data = (s', None) ∧
    r = reported target ∧
    filepath_Ext target
    = (if String.eqb outputPath "" then mimeTypeToExt mimeType
       else filepath_Ext outputPath).
Proof.
  intros W. apply WriteImage_inv in W as (s1 & _ & W & ->).
  exists s1, (dedup s1 (indexedPath s mimeType outputPath command index)).
  split; [exact W|]. split; [reflexivity|].
  rewrite dedup_Ext. apply indexedPath_Ext.
Qed.

(** X7: a successful [WriteImage] writes either to a path at which nothing
    existed once the directory was in place, or, when the resolved path and
    all of its 999 suffixed candidates exist, to the resolved path itself: no
    other existing file is ever the target. *)
Theorem X7_never_overwrites (s s' : fs) (data : list byte)
    (mimeType outputPath command : string) (index : Z) (r : string) :
  WriteImage s data mimeType outputPath command index = (s', (r, None)) →
  ∃ s1 target,
    ensureDir s (indexedPath s mimeType outputPath command index) = (s1, None) ∧
    os_WriteFile s1 target data = (s', None) ∧
    (free s1 target ∨
     (target = indexedPath s mimeType outputPath command index ∧
      ∀ k, (1 ≤ k ≤ 999)%Z → ¬ free s1 (candidate target k))).
Proof.
  intros W. apply WriteImage_inv in W as (s1 & D & W & _).
  exists s1, (dedup s1 (indexedPath s mimeType outputPath command index)).
  split; [exact D|]. split; [exact W|].
  destruct (dedup_cases s1 (indexedPath s mimeType outputPath command index))
    as [(F & ->) | [(_ & k & _ & F & _ & ->) | (_ & B & ->)]].
  - now left.
  - now left.
  - right. split; [reflexivity | exact B].
Qed.

(** The error of a call of [WriteImage] that fails. *)
Lemma WriteImage_error (s s' : fs) (data : list byte)
    (mimeType outputPath command : string) (index : Z) (r : string) (err : error) :
  WriteImage s data mimeType outputPath command index = (s', (r, Some err)) →
  r = "" ∧
  ∃ prefix cause, err = Errorf_w prefix cause ∧
                  (prefix = "create output directory: " ∨ prefix = "write image: ").
Proof.
  unfold WriteImage.
  destruct (ensureDir s _) as [s1 [e|]].
  { intros [= <- <- <-]. split; [reflexivity|]. eexists _, _. split; [reflexivity | tauto]. }
  destruct (os_WriteFile s1 _ data) as [s2 [e|]].
  { intros [= <- <- <-]. split; [reflexivity|]. eexists _, _. split; [reflexivity | tauto]. }
  destruct (filepath_Abs _) as [absPath [e|]]; discriminate.
Qed.

Lemma writeImages_error_paths (s : fs) (images : list ImageResult)
    (flagOutput command : string) (i : Z) :
  ∀ e, snd (snd (writeImages s images flagOutput command i)) = Some e →
       fst (snd (writeImages s images flagOutput command i)) = [].
Proof.
  revert s i. induction images as [|img rest IH]; intros s i e; simpl; [discriminate|].
  destruct (WriteImage s _ _ flagOutput command i) as [s1 [path [err|]]]; [reflexivity|].
  destruct (writeImages s1 rest flagOutput command (i + 1)) as [s2 [paths [e'|]]];
    [reflexivity | discriminate].
Qed.

(** X8: the loop over the images of a response returns either one path per
    image and no error, or no path and an error with the exit code file-io
    (10) whose message is that of the failed call: [create output directory: ]
    or [write image: ] followed by the cause. *)
Theorem X8_write_loop_outcome (s : fs) (images : list ImageResult)
    (flagOutput command : string) (i : Z) :
  let r := writeImages s images flagOutput command i in
  (snd (snd r) = None → length (fst (snd r)) = length images) ∧
  (∀ e, snd (snd r) = Some e →
        fst (snd r) = [] ∧ code e = 10 ∧
        ∃ prefix cause, message e = prefix +:+ Error cause ∧
                        (prefix = "create output directory: " ∨
                         prefix = "write image: ")).
Proof.
  revert s i. induction images as [|img rest IH]; intros s i; simpl.
  - split; [reflexivity | discriminate].
  - destruct (WriteImage s _ _ flagOutput command i) as [s1 [path [err|]]] eqn:W.
    + simpl. split; [discriminate|]. intros e [= <-]. split; [reflexivity|].
      split; [reflexivity|]. simpl.
      destruct (WriteImage_error _ _ _ _ _ _ _ _ _ W) as (_ & prefix & cause & -> & P).
      exists prefix, cause. split; [reflexivity | exact P].
    + specialize (IH s1 (i + 1)%Z). simpl in IH.
      destruct (writeImages s1 rest flagOutput command (i + 1)) as [s2 [paths [e|]]];
        simpl in *.
      * split; [discriminate|]. intros e' [= <-].
        destruct (proj2 IH e eq_refl) as (_ & C & X).
        split; [reflexivity|]. split; assumption.
      * split; [|discriminate]. intros _. f_equal. now apply (proj1 IH).
Qed.

(** X9: the loop is sequential and stops at the first failure: over two
    lists of images in a row it is the loop over the first, and then, only if
    that one succeeded, the loop over the second from the state and the index
    reached; after a failure the file system is as the failed call left it. *)
Theorem X9_write_loop_app (s : fs) (images more : list ImageResult)
    (flagOutput command : string) (i : Z) :
  writeImages s (images ++ more) flagOutput command i
  = match writeImages s images flagOutput command i with
    | (s1, (_, Some e)) => (s1, ([], Some e))
    | (s1, (paths, None)) =>
        match writeImages s1 more flagOutput command (i + Z.of_nat (length images)) with
        | (s2, (_, Some e)) => (s2, ([], Some e))
        | (s2, (paths', None)) => (s2, ((paths ++ paths')%list, None))
        end
    end.
Proof.
  revert s i. induction images as [|img rest IH]; intros s i.
  - simpl. rewrite Z.add_0_r.
    destruct (writeImages s more flagOutput command i) as [s2 [paths' [e|]]] eqn:E;
      [|reflexivity].
    pose proof (writeImages_error_paths s more flagOutput command i) as Q.
    rewrite E in Q. simpl in Q. rewrite (Q e eq_refl). reflexivity.
  - cbn [app writeImages length].
    destruct (WriteImage s _ _ flagOutput command i) as [s1 [path [err|]]];
      [reflexivity|].
    rewrite IH. replace (i + 1 + Z.of_nat (length rest))%Z
      with (i + Z.of_nat (S (length rest)))%Z by lia.
    destruct (writeImages s1 rest flagOutput command (i + 1)) as [s2 [paths [e|]]];
      [reflexivity|].
    destruct (writeImages s2 more flagOutput command _) as [s3 [paths' [e|]]];
      reflexivity.
Qed.

End WriterOutcomes.

Lemma X6_extension_kept_witness :
  ∃ s1 target s',
    @WriteImage workOS emptyFS (bytes "jpeg-data") "image/jpeg" "" "icon" 0
      = (s', ("/work/naba-icon-20260209-150405.jpg", None)) ∧
    @os_WriteFile workOS s1 target (bytes "jpeg-data") = (s', None) ∧
    filepath_Ext target = ".jpg".
Proof.
  pose (r := @WriteImage workOS emptyFS (bytes "jpeg-data") "image/jpeg" "" "icon" 0).
  destruct (@X6_extension_kept workOS emptyFS (fst r) (bytes "jpeg-data") "image/jpeg" ""
              "icon" 0 "/work/naba-icon-20260209-150405.jpg" eq_refl)
    as (s1 & target & W & _ & E).
  exists s1, target, (fst r). split; [reflexivity|]. split; [exact W | exact E].
Defined.

Lemma X7_never_overwrites_witness :
  ∃ s1 target s',
    @WriteImage workOS threeConflicts (bytes "data") "image/png" "test.png" "generate" 0
      = (s', ("/work/test-3.png", None)) ∧
    @os_WriteFile workOS s1 target (bytes "data") = (s', None) ∧
    (@free workOS s1 target ∨
     (target = "test.png" ∧
      ∀ k, (1 ≤ k ≤ 999)%Z → ¬ @free workOS s1 (candidate target k))).
Proof.
  pose (r := @WriteImage workOS threeConflicts (bytes "data") "image/png" "test.png"
               "generate" 0).
  destruct (@X7_never_overwrites workOS threeConflicts (fst r) (bytes "data") "image/png"
              "test.png" "generate" 0 "/work/test-3.png" eq_refl)
    as (s1 & target & _ & W & K).
  exists s1, target, (fst r). split; [reflexivity|]. split; [exact W | exact K].
Defined.

Section GeneratedNames.
Context `{Lib} `{OS}.

Lemma detectMIMEType_Ext (path path' : string) :
  filepath_Ext path = filepath_Ext path' → detectMIMEType path = detectMIMEType path'.
Proof. unfold detectMIMEType. now intros ->. Qed.

(** X10: a file name that [generateFilename] makes for a MIME type is read
    back by [detectMIMEType] as that MIME type when it is [image/png],
    [image/jpeg], [image/gif] or [image/webp], and as [image/png] for any
    other, whatever the command, the time and the index. *)
Theorem X10_generated_name_mime (s : fs) (command mimeType : string) (index : Z) :
  detectMIMEType (generateFilename s command mimeType index)
  = if decide (mimeType ∈ ["image/png"; "image/jpeg"; "image/gif"; "image/webp"])
    then mimeType else "image/png".
Proof.
  unfold detectMIMEType. rewrite generateFilename_Ext. unfold mimeTypeToExt.
  destruct (String.eqb_spec mimeType "image/png") as [->|N1]; [reflexivity|].
  destruct (String.eqb_spec mimeType "image/jpeg") as [->|N2]; [reflexivity|].
  destruct (String.eqb_spec mimeType "image/gif") as [->|N3]; [reflexivity|].
  destruct (String.eqb_spec mimeType "image/webp") as [->|N4]; [reflexivity|].
  case_decide as I; [|reflexivity].
  repeat (apply elem_of_cons in I as [I|I]; [congruence|]). inversion I.
Qed.

End GeneratedNames.

(* ===================================================================== *)
(** * The configuration *)
(* ===================================================================== *)

Lemma ValidKeys_elem (key : string) :
  key ∈ ValidKeys ↔ key = "api_key" ∨ key = "model" ∨ key = "default_output_dir".
Proof.
  unfold ValidKeys. rewrite !elem_of_cons, elem_of_nil. tauto.
Qed.

Lemma Config_Set_valid (c : Config) (key value : string) :
  snd (Config_Set c key value) = true ↔ key ∈ ValidKeys.
Proof.
  rewrite ValidKeys_elem. unfold Config_Set.
  destruct (String.eqb_spec key "api_key"); [simpl; tauto|].
  destruct (String.eqb_spec key "model"); [simpl; tauto|].
  destruct (String.eqb_spec key "default_output_dir"); [simpl; tauto|].
  simpl. split; [discriminate | tauto].
Qed.

Lemma Config_Get_Set (c : Config) (key value : string) :
  key ∈ ValidKeys → Config_Get (fst (Config_Set c key value)) key = value.
Proof. rewrite ValidKeys_elem. intros [-> | [-> | ->]]; reflexivity. Qed.

Lemma Config_Get_invalid (c : Config) (key : string) :
  key ∉ ValidKeys → Config_Get c key = "".
Proof.
  rewrite ValidKeys_elem. intros N. unfold Config_Get.
  destruct (String.eqb_spec key "api_key"); [tauto|].
  destruct (String.eqb_spec key "model"); [tauto|].
  destruct (String.eqb_spec key "default_output_dir"); [tauto|]. reflexivity.
Qed.

(** X11: [Set] accepts exactly the keys of [ValidKeys]; after [Set] of a
    valid key, [Get] of that key gives the value and [Get] of every other key
    gives what it gave before; [Set] of any other key changes nothing, and
    [Get] of such a key is empty. *)
Theorem X11_config_set_get (c : Config) (key value : string) :
  (snd (Config_Set c key value) = true ↔ key ∈ ValidKeys) ∧
  (key ∈ ValidKeys →
     Config_Get (fst (Config_Set c key value)) key = value ∧
     ∀ k, k ≠ key → Config_Get (fst (Config_Set c key value)) k = Config_Get c k) ∧
  (key ∉ ValidKeys → fst (Config_Set c key value) = c ∧ Config_Get c key = "").
Proof.
  split; [apply Config_Set_valid|]. rewrite ValidKeys_elem. split.
  - intros [-> | [-> | ->]]; (split; [reflexivity|]); intros k N;
      unfold Config_Get, Config_Set; simpl;
      destruct (String.eqb_spec k "api_key"), (String.eqb_spec k "model"),
        (String.eqb_spec k "default_output_dir"); congruence.
  - intros N. unfold Config_Get, Config_Set.
    destruct (String.eqb_spec key "api_key"); [tauto|].
    destruct (String.eqb_spec key "model"); [tauto|].
    destruct (String.eqb_spec key "default_output_dir"); [tauto|].
    split; reflexivity.
Qed.

Section ConfigTheorems.
Context `{OS} `{!OSLaws} `{Env}.

Lemma Save_Load (s s' : fs) (cfg : Config) :
  Save s cfg = (s', None) → reads_back cfg → Load s' = inl cfg.
Proof.
  unfold Save, Load. intros S R.
  destruct (os_MkdirAll s ConfigDir) as [s1 [e|]]; [discriminate|].
  destruct (yaml_Marshal cfg) as [data [e|]] eqn:M; [discriminate|].
  rewrite (WriteFile_ReadFile _ _ _ _ S), (R data M). reflexivity.
Qed.

(** X12: a config that [Save] has written without error is what [Load]
    returns next, for a codec that reads back what it writes and a file
    system that keeps what is written: the directory is created, the file
    written and read at the same path. *)
Theorem X12_save_load (s s' : fs) (cfg : Config) :
  Save s cfg = (s', None) → reads_back cfg → Load s' = inl cfg.
Proof. apply Save_Load. Qed.

(** X13: the API key of the environment, when it is not empty, is the key
    that [ResolveAPIKey] returns whatever the config file holds; when it is
    empty, [ResolveAPIKey] returns the key of the config last saved, and the
    empty key when there is no config file or when the config cannot be
    loaded: it never fails. *)
Theorem X13_api_key_precedence :
  (os_Getenv EnvAPIKey ≠ "" → ∀ s, ResolveAPIKey s = os_Getenv EnvAPIKey) ∧
  (os_Getenv EnvAPIKey = "" →
     (∀ s s' cfg, Save s cfg = (s', None) → reads_back cfg →
                  ResolveAPIKey s' = Config_APIKey cfg) ∧
     (∀ s, os_IsNotExist (snd (os_ReadFile s ConfigPath)) = true →
           ResolveAPIKey s = "") ∧
     (∀ s err, Load s = inr err → ResolveAPIKey s = "")).
Proof.
  unfold ResolveAPIKey. split.
  - intros N s. apply String.eqb_neq in N. now rewrite N.
  - intros E. rewrite E. simpl. split; [|split].
    + intros s s' cfg S R. now rewrite (Save_Load _ _ _ S R).
    + intros s F. unfold Load.
      destruct (os_ReadFile s ConfigPath) as [data [e|]]; cbn [snd] in F;
        [|discriminate].
      now rewrite F.
    + intros s err L. now rewrite L.
Qed.

End ConfigTheorems.

Section ConfigCommandTheorems.
Context `{Lib} `{OS} `{!OSLaws} `{Env}.

(** X14: after [config set] of a key has succeeded, [config get] of that key
    prints the value, and, when the value is empty, fails with the general
    exit code (1) because the key is not set; [config set] succeeds for
    valid keys only. *)
Theorem X14_config_set_then_get (s s' : fs) (flagQuiet : bool) (key value : string)
    (cfg0 : Config) (out : list string) :
  Load s = inl cfg0 →
  reads_back (fst (Config_Set cfg0 key value)) →
  configSet s flagQuiet key value = (s', (out, None)) →
  key ∈ ValidKeys ∧
  (value ≠ "" → configGet s' key = ([value], None)) ∧
  (value = "" → ∃ e, configGet s' key = ([], Some e) ∧ code e = 1).
Proof.
  intros L R C. unfold configSet in C. rewrite L in C.
  destruct (Config_Set cfg0 key value) as [cfg ok] eqn:S. simpl in R.
  destruct ok; [|discriminate].
  assert (V : key ∈ ValidKeys) by (apply (Config_Set_valid cfg0 key value); now rewrite S).
  destruct (Save s cfg) as [s1 [e|]] eqn:W; [discriminate|].
  injection C as <- _. split; [exact V|].
  unfold configGet. rewrite (Save_Load _ _ _ W R).
  pose proof (Config_Get_Set cfg0 key value V) as G. rewrite S in G. simpl in G.
  rewrite G. split.
  - intros N. apply String.eqb_neq in N. now rewrite N.
  - intros ->. simpl. eexists. split; reflexivity.
Qed.

(** X15: the errors of [config set]: the general exit code (1) when the
    config cannot be loaded, usage (2) when the key is not a valid key,
    file-io (10) when the config cannot be saved; in the first two cases the
    file system is left as it was. Of a key that is not valid, [config get]
    says, with the general exit code (1), that it is not set. *)
Theorem X15_config_errors (s : fs) (flagQuiet : bool) (key value : string)
    (e : exitCodeError) :
  snd (snd (configSet s flagQuiet key value)) = Some e →
  ((code e = 1 ∧ (∃ err, Load s = inr err) ∧ fst (configSet s flagQuiet key value) = s) ∨
   (code e = 2 ∧ (key ∉ ValidKeys) ∧ (∃ cfg, Load s = inl cfg) ∧
    fst (configSet s flagQuiet key value) = s ∧
    ∃ e', configGet s key = ([], Some e') ∧ code e' = 1) ∨
   (code e = 10 ∧ key ∈ ValidKeys ∧
    ∃ cfg, Load s = inl cfg ∧ snd (Save s (fst (Config_Set cfg key value))) ≠ None)) ∧
  fst (snd (configSet s flagQuiet key value)) = [].
Proof.
  unfold configSet, configGet. destruct (Load s) as [cfg|err] eqn:L.
  - destruct (Config_Set cfg key value) as [cfg' ok] eqn:S. destruct ok.
    + assert (V : key ∈ ValidKeys)
        by (apply (Config_Set_valid cfg key value); now rewrite S).
      destruct (Save s cfg') as [s1 [err|]] eqn:W; simpl; [|discriminate].
      intros [= <-]. split; [|reflexivity]. right. right.
      split; [reflexivity|]. split; [exact V|]. exists cfg. split; [reflexivity|].
      rewrite S. cbn [fst]. rewrite W. discriminate.
    + assert (V : key ∉ ValidKeys).
      { intros V. apply (Config_Set_valid cfg key value) in V. rewrite S in V.
        discriminate. }
      simpl. intros [= <-]. split; [|reflexivity]. right. left.
      split; [reflexivity|]. split; [exact V|]. split; [eauto|]. split; [reflexivity|].
      rewrite (Config_Get_invalid cfg key V). simpl.
      eexists. split; reflexivity.
  - simpl. intros [= <-]. split; [|reflexivity]. left.
    split; [reflexivity|]. split; [eauto | reflexivity].
Qed.

End ConfigCommandTheorems.

Lemma savedConfig_reads_back : @reads_back bareEnv savedConfig.
Proof. intros data [= <-]. reflexivity. Qed.

Lemma X12_save_load_witness :
  ∃ s', @Save workOS bareEnv emptyFS savedConfig = (s', None) ∧
        @os_ReadFile workOS s' "/home/user/.config/nba/config.yaml"
        = (bytes ("file-key" +:+ nl +:+ "gemini-pro" +:+ nl +:+ "/tmp/out"), None) ∧
        @Load workOS bareEnv s' = inl savedConfig.
Proof.
  pose (r := @Save workOS bareEnv emptyFS savedConfig). exists (fst r).
  split; [reflexivity|]. split; [reflexivity|].
  apply (@X12_save_load workOS (memOS_laws _) bareEnv emptyFS (fst r) savedConfig);
    [reflexivity | apply savedConfig_reads_back].
Defined.

Lemma X13_api_key_precedence_witness :
  @ResolveAPIKey workOS keyEnv emptyFS = "env-key" ∧
  @ResolveAPIKey workOS bareEnv emptyFS = "" ∧
  @ResolveAPIKey workOS bareEnv (fst (@Save workOS bareEnv emptyFS savedConfig))
  = "file-key".
Proof.
  destruct (@X13_api_key_precedence workOS (memOS_laws _) keyEnv) as [K _].
  destruct (@X13_api_key_precedence workOS (memOS_laws _) bareEnv) as [_ B].
  destruct (B eq_refl) as (S & M & _).
  split; [|split].
  - apply K. discriminate.
  - apply M. reflexivity.
  - apply (S emptyFS _ savedConfig); [reflexivity | apply savedConfig_reads_back].
Defined.

Lemma X14_config_set_then_get_witness :
  ∃ s', @configSet codecLib workOS bareEnv emptyFS false "api_key" "test-key-123"
        = (s', (["Set api_key = test-key-123"], None)) ∧
        @configGet codecLib workOS bareEnv s' "api_key" = (["test-key-123"], None).
Proof.
  pose (r := @configSet codecLib workOS bareEnv emptyFS false "api_key" "test-key-123").
  exists (fst r). split; [reflexivity|].
  destruct (@X14_config_set_then_get codecLib workOS (memOS_laws _) bareEnv emptyFS (fst r)
              false "api_key" "test-key-123" zeroConfig ["Set api_key = test-key-123"])
    as (_ & G & _);
    [reflexivity | intros data [= <-]; reflexivity | reflexivity |].
  apply G. discriminate.
Defined.

Lemma X15_config_errors_witness :
  ∃ e, @configSet codecLib workOS bareEnv emptyFS false "colour" "blue"
       = (emptyFS, ([], Some e)) ∧ code e = 2.
Proof.
  pose (r := @configSet codecLib workOS bareEnv emptyFS false "colour" "blue").
  destruct (snd (snd r)) as [e|] eqn:E; [|discriminate].
  exists e.
  destruct (@X15_config_errors codecLib workOS bareEnv emptyFS false
              "colour" "blue" e E) as [[(_ & (err & L) & _) | [(C & _) | (_ & V & _)]] _].
  - discriminate.
  - split; [|exact C]. subst r. vm_compute in E. injection E as <-. reflexivity.
  - exfalso. apply ValidKeys_elem in V. destruct V as [V | [V | V]]; discriminate.
Defined.

(* ===================================================================== *)
(** * Formats and icons *)
(* ===================================================================== *)

Lemma slice_TrimSuffix (path : string) :
  substring 0 (String.length path - String.length (filepath_Ext path)) path
  = strings_TrimSuffix path (filepath_Ext path).
Proof.
  pose proof (Ext_split path) as S.
  generalize dependent (strings_TrimSuffix path (filepath_Ext path)).
  generalize (filepath_Ext path). intros e t S. subst path.
  rewrite append_length.
  replace (String.length t + String.length e - String.length e)%nat
    with (String.length t) by lia.
  apply substring_prefix.
Qed.

Section FormatTheorems.
Context `{Lib} `{OS}.

Lemma ExtForFormat_cases (format : string) :
  ExtForFormat format = ".jpg" ∨ ExtForFormat format = ".png".
Proof.
  unfold ExtForFormat.
  destruct (String.eqb _ "jpeg" || String.eqb _ "jpg"); [now left|].
  destruct (String.eqb _ "png"); now right.
Qed.

(** X16: [ExtForFormat] refuses no format: the result is [.jpg] or [.png].
    For a format of ASCII bytes it looks at the format without regard to
    the case of its letters: [jpeg] and [jpg] give [.jpg], and every other
    such format, [png] or not, gives [.png]. A format with a byte above 127
    gives [.jpg] exactly when the Unicode lowering maps it onto [jpeg] or
    [jpg]. *)
Theorem X16_ExtForFormat (format : string) :
  (equalFold format "jpeg" ∨ equalFold format "jpg" → ExtForFormat format = ".jpg") ∧
  (isASCII format = true → ¬ equalFold format "jpeg" → ¬ equalFold format "jpg" →
   ExtForFormat format = ".png") ∧
  (isASCII format = false →
   (ExtForFormat format = ".jpg" ↔
    unicode_ToLower format = "jpeg" ∨ unicode_ToLower format = "jpg")) ∧
  (ExtForFormat format = ".jpg" ∨ ExtForFormat format = ".png").
Proof.
  split; [|split; [|split; [|apply ExtForFormat_cases]]].
  - intros E. unfold ExtForFormat, strings_ToLower.
    assert (A : isASCII format = true)
      by (destruct E as [E|E]; apply (equalFold_isASCII _ _ E); reflexivity).
    rewrite A. unfold equalFold in E. destruct E as [-> | ->]; reflexivity.
  - intros A N1 N2. unfold ExtForFormat, strings_ToLower. rewrite A.
    unfold equalFold in N1, N2. simpl in N1, N2.
    destruct (String.eqb_spec (map_string lower_ascii format) "jpeg"); [contradiction|].
    destruct (String.eqb_spec (map_string lower_ascii format) "jpg"); [contradiction|].
    simpl. now destruct (String.eqb _ "png").
  - intros A. unfold ExtForFormat, strings_ToLower. rewrite A.
    destruct (String.eqb_spec (unicode_ToLower format) "jpeg") as [E1|N1];
      [cbn; tauto|].
    destruct (String.eqb_spec (unicode_ToLower format) "jpg") as [E2|N2];
      [cbn; tauto|].
    cbn. split; [|tauto]. destruct (String.eqb _ "png"); discriminate.
Qed.

(** X17: the name under which [runIcon] has the image of the size at index
    [i] written, before dedup. With no output path it is [icon-<size>] and
    the extension of the format; with an output path and several sizes it is
    the path with [-<size>] before its extension; and from the second size
    on, [WriteImage] puts [-<i+1>] before the extension as well, as in
    [foo-128-2.png]. With an output path and a single size it is the name
    [WriteImage] gives the path. *)
Theorem X17_icon_names (s : fs) (mimeType flagOutput iconFormat : string) (size : Z)
    (nSizes : nat) (i : Z) :
  (0 ≤ i < 2 ^ 63 - 1)%Z →
  let name := indexedPath s mimeType (iconOutPath flagOutput iconFormat size nSizes)
                "icon" i in
  let tail := if decide (0 < i)%Z then "-" +:+ itoa (i + 1) else "" in
  (flagOutput = "" →
     name = "icon-" +:+ itoa size +:+ tail +:+ ExtForFormat iconFormat) ∧
  (flagOutput ≠ "" → (1 < nSizes)%nat →
     name = strings_TrimSuffix flagOutput (filepath_Ext flagOutput) +:+ "-" +:+ itoa size
              +:+ tail +:+ filepath_Ext flagOutput) ∧
  (flagOutput ≠ "" → (nSizes ≤ 1)%nat → name = indexedName flagOutput i).
Proof.
  intros R name tail. subst name tail.
  assert (I : ∀ p, p ≠ "" →
              indexedPath s mimeType p "icon" i
              = if decide (0 < i)%Z then candidate p (i + 1) else p).
  { intros p N. rewrite indexedPath_requested by (assumption || lia). reflexivity. }
  assert (K : ∀ a e, a ≠ "" → filepath_Ext (a +:+ e) = e →
              (if decide (0 < i)%Z then candidate (a +:+ e) (i + 1) else a +:+ e)
              = a +:+ (if decide (0 < i)%Z then "-" +:+ itoa (i + 1) else "") +:+ e).
  { intros a e N E. case_decide; [|reflexivity].
    unfold candidate, suffixed. rewrite E, TrimSuffix_app.
    now rewrite !append_assoc. }
  split; [|split].
  - intros ->. unfold iconOutPath. simpl.
    rewrite I by (apply append_nonempty; discriminate).
    rewrite <- (append_assoc "icon-" (itoa size)).
    rewrite K; [now rewrite !append_assoc | apply append_nonempty; discriminate |].
    destruct (ExtForFormat_cases iconFormat) as [-> | ->];
      [apply (Ext_ends _ "jpg") | apply (Ext_ends _ "png")]; reflexivity.
  - intros N L. unfold iconOutPath. apply String.eqb_neq in N. rewrite N.
    apply Nat.ltb_lt in L. rewrite L. rewrite slice_TrimSuffix.
    set (base := strings_TrimSuffix flagOutput (filepath_Ext flagOutput)).
    assert (P : base +:+ "-" +:+ itoa size +:+ filepath_Ext flagOutput
                = (base +:+ "-" +:+ itoa size) +:+ filepath_Ext flagOutput)
      by now rewrite !append_assoc.
    rewrite P, I.
    + rewrite K; [now rewrite !append_assoc | |].
      * intros E. apply (f_equal String.length) in E.
        rewrite !append_length in E. simpl in E. lia.
      * rewrite <- P. apply (Ext_candidate flagOutput size).
    + intros E. apply (f_equal String.length) in E.
      rewrite !append_length in E. simpl in E. lia.
  - intros N L. unfold iconOutPath. apply String.eqb_neq in N. rewrite N.
    assert (Nat.ltb 1 nSizes = false) as -> by (apply Nat.ltb_ge; lia).
    apply indexedPath_requested; [now apply String.eqb_neq | lia].
Qed.

End FormatTheorems.

Lemma X17_icon_names_witness :
  @indexedPath workOS emptyFS "image/png"
    (@iconOutPath codecLib "foo.png" "png" 128 2) "icon" 1 = "foo-128-2.png" ∧
  @indexedPath workOS emptyFS "image/png"
    (@iconOutPath codecLib "" "JPEG" 64 1) "icon" 0 = "icon-64.jpg".
Proof.
  destruct (@X17_icon_names codecLib workOS emptyFS "image/png" "foo.png" "png" 128 2 1)
    as (_ & A & _); [lia|].
  destruct (@X17_icon_names codecLib workOS emptyFS "image/png" "" "JPEG" 64 1 0)
    as (B & _); [lia|].
  split.
  - rewrite A; [reflexivity | discriminate | lia].
  - rewrite B; reflexivity.
Defined.

(* ===================================================================== *)
(** * The prompts *)
(* ===================================================================== *)

Section PromptFacts.

Lemma mentions_refl (s : string) : mentions s s.
Proof. exists "", "". now rewrite append_nil_r. Qed.

Lemma mentions_app_r (a c x : string) : mentions c x → mentions (a +:+ c) x.
Proof.
  intros (before & after & ->). exists (a +:+ before), after.
  now rewrite append_assoc.
Qed.

Lemma mentions_app_l (a c x : string) : mentions a x → mentions (a +:+ c) x.
Proof.
  intros (before & after & ->). exists before, (after +:+ c).
  now rewrite !append_assoc.
Qed.

Lemma Join_cons (a : string) (rest : list string) (sep : string) :
  strings_Join (a :: rest) sep
  = a +:+ fold_right (λ e acc, sep +:+ e +:+ acc) "" rest.
Proof.
  revert a. induction rest as [|e rest IH]; intros a.
  - cbn. now rewrite append_nil_r.
  - change (strings_Join (a :: e :: rest) sep)
      with (a +:+ sep +:+ strings_Join (e :: rest) sep).
    rewrite IH. reflexivity.
Qed.

Lemma Join_mentions (parts : list string) (sep x : string) :
  x ∈ parts → mentions (strings_Join parts sep) x.
Proof.
  induction parts as [|a rest IH]; intros I; [inversion I|].
  apply elem_of_cons in I as [-> | I].
  - rewrite Join_cons. apply mentions_app_l, mentions_refl.
  - destruct rest as [|e rest]; [inversion I|].
    change (strings_Join (a :: e :: rest) sep)
      with (a +:+ sep +:+ strings_Join (e :: rest) sep).
    now apply mentions_app_r, mentions_app_r, IH.
Qed.

Lemma fold_left_append (f : string → string) (vs parts : list string) :
  fold_left (λ parts v, (parts ++ [f v])%list) vs parts = (parts ++ map f vs)%list.
Proof.
  revert parts. induction vs as [|v vs IH]; intros parts; simpl.
  - now rewrite app_nil_r.
  - now rewrite IH, <- app_assoc.
Qed.

Lemma vary_fold (variations : list string) :
  fold_right (λ e acc, ". " +:+ e +:+ acc) "" (map (λ v, "Vary the " +:+ v) variations)
  = fold_right (λ v acc, ". Vary the " +:+ v +:+ acc) "" variations.
Proof.
  induction variations as [|v vs IH]; [reflexivity|].
  cbn [map fold_right]. rewrite IH. now rewrite !append_assoc.
Qed.

Lemma EnrichGeneratePrompt_eq (prompt style : string) (variations : list string) :
  EnrichGeneratePrompt prompt style variations = prompt +:+ enrichment style variations.
Proof.
  unfold EnrichGeneratePrompt, enrichment.
  destruct (String.eqb style ""); cbn [negb]; rewrite fold_left_append; cbn [app];
    rewrite Join_cons.
  - now rewrite vary_fold.
  - cbn [fold_right]. rewrite vary_fold. now rewrite !append_assoc.
Qed.

(** X18: [EnrichGeneratePrompt] keeps the prompt unchanged at the start and
    adds after it one sentence for the style, when there is one, and one
    sentence for each variation, in order; with no style and no variation
    the prompt is returned as it is, and only then. *)
Theorem X18_generate_prompt (prompt style : string) (variations : list string) :
  EnrichGeneratePrompt prompt style variations
  = prompt
      +:+ (if String.eqb style "" then "" else ". Style: " +:+ style)
      +:+ fold_right (λ v acc, ". Vary the " +:+ v +:+ acc) "" variations ∧
  (EnrichGeneratePrompt prompt style variations = prompt ↔ style = "" ∧ variations = []).
Proof.
  rewrite EnrichGeneratePrompt_eq. unfold enrichment. split; [reflexivity|]. split.
  - intros E. apply (f_equal String.length) in E. rewrite !append_length in E.
    destruct (String.eqb_spec style "") as [->|N].
    + split; [reflexivity|]. destruct variations as [|v vs]; [reflexivity|].
      simpl in E. lia.
    + rewrite append_length in E. simpl in E. lia.
  - intros [-> ->]. simpl. now rewrite append_nil_r.
Qed.

(** X19: every prompt sent to the API contains the text of the user: the
    edit, restore (given a prompt), icon, pattern, story and diagram prompts
    mention the prompt as it was given; the restore prompt of an empty prompt
    is a fixed sentence. *)
Theorem X19_prompts_keep_text (prompt : string) :
  mentions (EnrichEditPrompt prompt) prompt ∧
  (prompt ≠ "" → mentions (EnrichRestorePrompt prompt) prompt) ∧
  EnrichRestorePrompt ""
  = "Restore and enhance this image. Improve quality, fix artifacts, and sharpen details." ∧
  (∀ style size background corners,
     mentions (EnrichIconPrompt prompt style size background corners) prompt) ∧
  (∀ style colors density tileSize repeat,
     mentions (EnrichPatternPrompt prompt style colors density tileSize repeat) prompt) ∧
  (∀ step totalSteps style transition,
     mentions (EnrichStoryPrompt prompt step totalSteps style transition) prompt) ∧
  (∀ diagramType style layout complexity colors,
     mentions (EnrichDiagramPrompt prompt diagramType style layout complexity colors)
              prompt).
Proof.
  split; [apply mentions_app_r, mentions_refl|].
  split.
  { intros N. unfold EnrichRestorePrompt. apply String.eqb_neq in N. rewrite N.
    apply mentions_app_r, mentions_refl. }
  split; [reflexivity|].
  split.
  { intros style size background corners. unfold EnrichIconPrompt.
    destruct (negb _), (String.eqb corners _); cbn [app];
      rewrite Join_cons; apply mentions_app_l, mentions_app_r, mentions_refl. }
  split.
  { intros style colors density tileSize repeat. unfold EnrichPatternPrompt.
    destruct (String.eqb repeat _); cbn [app]; rewrite Join_cons;
      apply mentions_app_l; repeat apply mentions_app_r; apply mentions_refl. }
  split.
  { intros step totalSteps style transition. unfold EnrichStoryPrompt.
    destruct (String.eqb style _), (String.eqb transition "dramatic"),
      (String.eqb transition "fade"), (Z.eqb step 1), (Z.eqb step totalSteps); cbn [app];
      rewrite Join_cons; apply mentions_app_l; repeat apply mentions_app_r;
      apply mentions_refl. }
  intros diagramType style layout complexity colors. unfold EnrichDiagramPrompt.
  rewrite Join_cons. apply mentions_app_l. repeat apply mentions_app_r.
  apply mentions_refl.
Qed.

End PromptFacts.

(* ===================================================================== *)
(** * The edit command *)
(* ===================================================================== *)

Section EditFacts.
Context `{Lib} `{OS} `{Env} `{!Host}.

Lemma writeImages_code (s : fs) (images : list ImageResult)
    (flagOutput command : string) (i : Z) (e : exitCodeError) :
  snd (snd (writeImages s images flagOutput command i)) = Some e → code e = 10%Z.
Proof.
  revert s i. induction images as [|img rest IH]; intros s i; simpl; [discriminate|].
  destruct (WriteImage s _ _ flagOutput command i) as [s1 [path [err|]]].
  - intros [= <-]. reflexivity.
  - specialize (IH s1 (i + 1)%Z).
    destruct (writeImages s1 rest flagOutput command (i + 1)) as [s2 [paths [e'|]]];
      simpl in *; [|discriminate].
    intros [= <-]. now apply IH.
Qed.

Lemma GenerateWithImage_code (c : Client) (s : fs) (prompt imagePath : string)
    (err : error) :
  snd (GenerateWithImage c s prompt imagePath) = Some err →
  (fst (GenerateWithImage c s prompt imagePath) = [] ∧
   (code (handleAPIError err) = 1 ∨ code (handleAPIError err) = 3 ∨
    code (handleAPIError err) = 4 ∨ code (handleAPIError err) = 5 ∨
    code (handleAPIError err) = 10))%Z.
Proof.
  unfold GenerateWithImage, readImageFile.
  destruct (os_ReadFile s imagePath) as [data [cause|]]; simpl.
  - intros [= <-]. simpl. split; [reflexivity | tauto].
  - intros E. destruct (doRequest_error _ _ _ E) as (N & _ & K). split; [exact N|].
    destruct K as [(prefix & cause & -> & _) | (e & -> & K)]; simpl; [tauto|].
    unfold ExitAuth, ExitRateLimit, ExitAPI in K. tauto.
Qed.

Lemma printed_document (results : list Result) :
  match results with
  | [r] => PrintJSON r
  | _ => PrintJSONMulti results
  end =
  match document results with
  | (_, Some err) => ([], Some err)
  | (data, None) => ([string_of_list_byte data +:+ nl], None)
  end.
Proof. destruct results as [|r [|r' rest]]; reflexivity. Qed.

Lemma chosenModel_fun (s : fs) (fl : Flags) (m m' : string) :
  chosenModel s fl m → chosenModel s fl m' → m = m'.
Proof.
  intros [(N & ->) | (E & cfg & L & ->)] [(N' & ->) | (E' & cfg' & L' & ->)];
    congruence.
Qed.

(** The loop of [runEdit] against the loop over the files alone. *)
Lemma editLoop_spec (start : fs) (fl : Flags) (pv : bool) (imagePath prompt : string) :
  ∀ (images : list ImageResult) (s : fs) (i : Z) (all : list Result)
    (out err : list string) (st : list (string * string)),
    run_fs (editLoop start s fl pv imagePath prompt images i all out err st)
      = fst (writeImages s images (flagOutput fl) "edit" i) ∧
    run_stderr (editLoop start s fl pv imagePath prompt images i all out err st) = err ∧
    match snd (writeImages s images (flagOutput fl) "edit" i) with
    | (_, Some e) =>
        run_outcome (editLoop start s fl pv imagePath prompt images i all out err st)
          = Returns (Some (ExitErr e)) ∧
        ∃ done s1,
          (length done < length images)%nat ∧
          writeImages s (take (length done) images) (flagOutput fl) "edit" i
            = (s1, (done, None)) ∧
          run_stdout (editLoop start s fl pv imagePath prompt images i all out err st)
            = (out ++ (if flagJSON fl || flagQuiet fl then [] else savedLines done))%list ∧
          run_previews (editLoop start s fl pv imagePath prompt images i all out err st)
            = (st ++ (if pv then previewed done else []))%list
    | (paths, None) =>
        ∃ results,
          Forall2 (describes imagePath prompt) results paths ∧
          run_previews (editLoop start s fl pv imagePath prompt images i all out err st)
            = (st ++ (if pv then previewed paths else []))%list ∧
          if flagJSON fl then
            match document (all ++ results) with
            | (_, Some e) =>
                run_stdout (editLoop start s fl pv imagePath prompt images i all out err st)
                  = out ∧
                run_outcome (editLoop start s fl pv imagePath prompt images i all out err st)
                  = Returns (Some (PlainErr e))
            | (data, None) =>
                run_stdout (editLoop start s fl pv imagePath prompt images i all out err st)
                  = (out ++ [string_of_list_byte data +:+ nl])%list ∧
                run_outcome (editLoop start s fl pv imagePath prompt images i all out err st)
                  = Returns None
            end
          else
            run_stdout (editLoop start s fl pv imagePath prompt images i all out err st)
              = (out ++ (if flagQuiet fl then [] else savedLines paths))%list ∧
            run_outcome (editLoop start s fl pv imagePath prompt images i all out err st)
              = Returns None
    end.
Proof.
  induction images as [|img rest IH]; intros s i all out err st.
  - cbn [editLoop writeImages fst snd].
    split; [destruct (flagJSON fl); [rewrite printed_document;
                                     destruct (document all) as [data [e|]]|]; reflexivity|].
    split; [destruct (flagJSON fl); [rewrite printed_document;
                                     destruct (document all) as [data [e|]]|]; reflexivity|].
    exists []. split; [constructor|].
    rewrite app_nil_r.
    destruct (flagJSON fl).
    + rewrite printed_document. destruct (document all) as [data [e|]]; cbn.
      * split; [destruct pv; now rewrite app_nil_r | split; reflexivity].
      * split; [destruct pv; now rewrite app_nil_r | split; reflexivity].
    + cbn. split; [destruct pv; now rewrite app_nil_r|].
      split; [destruct (flagQuiet fl); now rewrite app_nil_r | reflexivity].
  - cbn [editLoop writeImages].
    destruct (WriteImage s _ _ (flagOutput fl) "edit" i) as [s1 [path [e|]]] eqn:W.
    + cbn. split; [reflexivity|]. split; [reflexivity|]. split; [reflexivity|].
      exists [], s. cbn. split; [lia|]. split; [reflexivity|].
      split; [destruct (_ || _) | destruct pv]; now rewrite app_nil_r.
    + match goal with
      | |- context [editLoop start s1 fl pv imagePath prompt rest (i + 1) ?a ?o err ?t] =>
          specialize (IH s1 (i + 1)%Z a o err t);
          destruct (editLoop start s1 fl pv imagePath prompt rest (i + 1) a o err t)
            as [rfs rout rerr rst rres]
      end.
      cbn [run_fs run_stdout run_stderr run_previews run_outcome] in *.
      destruct IH as (F & E & IH).
      destruct (writeImages s1 rest (flagOutput fl) "edit" (i + 1))
        as [s2 [paths [e|]]] eqn:WR; cbn [fst snd] in *.
      * split; [exact F|]. split; [exact E|].
        destruct IH as (O & done & s3 & L & T & SO & ST).
        split; [exact O|].
        exists (path :: done), s3. cbn [length take writeImages].
        rewrite W, T. split; [lia|]. split; [reflexivity|].
        split.
        -- rewrite SO. destruct (flagJSON fl), (flagQuiet fl); cbn; try reflexivity.
           now rewrite <- app_assoc.
        -- rewrite ST. destruct pv; cbn; [now rewrite <- app_assoc | reflexivity].
      * split; [exact F|]. split; [exact E|].
        destruct IH as (results & D & ST & IH).
        match type of IH with
        | context [((all ++ [?r]) ++ results)%list] => exists (r :: results)
        end.
        split; [constructor; [|exact D]; repeat split|].
        split.
        -- rewrite ST. destruct pv; cbn; [now rewrite <- app_assoc | reflexivity].
        -- rewrite <- app_assoc in IH. cbn [app] in IH.
           destruct (flagJSON fl); cbn in *.
           ++ exact IH.
           ++ destruct IH as (SO & O). split; [|exact O].
              rewrite SO. destruct (flagQuiet fl); cbn; [reflexivity|].
              now rewrite <- app_assoc.
Qed.

(** The loop of [runEdit] does not depend on [--preview] but for the
    programs it starts. *)
Lemma editLoop_preview (start : fs) (fl : Flags) (imagePath prompt : string) :
  ∀ (images : list ImageResult) (s : fs) (i : Z) (all : list Result)
    (out err : list string) (st st' : list (string * string)),
    let R := editLoop start s fl true imagePath prompt images i all out err st in
    let R' := editLoop start s fl false imagePath prompt images i all out err st' in
    run_fs R = run_fs R' ∧ run_stdout R = run_stdout R' ∧
    run_stderr R = run_stderr R' ∧ run_outcome R = run_outcome R' ∧
    run_previews R' = st'.
Proof.
  induction images as [|img rest IH]; intros s i all out err st st'.
  - cbn [editLoop]. destruct (flagJSON fl); [|cbn; tauto].
    rewrite printed_document. destruct (document all) as [data [e|]]; cbn; tauto.
  - cbn [editLoop].
    destruct (WriteImage s _ _ (flagOutput fl) "edit" i) as [s1 [path [e|]]];
      [cbn; tauto|].
    apply IH.
Qed.

(** [runEdit], step by step. *)
Lemma runEdit_cases (s : fs) (fl : Flags) (pv : bool) (imagePath prompt : string) :
  (ResolveAPIKey s = "" ∧
   ∃ msg, runEdit s fl pv imagePath prompt
          = mkRun s [] [] [] (Returns (Some (ExitErr (exitError ExitAuth msg))))) ∨
  (ResolveAPIKey s ≠ "" ∧ os_IsNotExist (os_Stat s imagePath) = true ∧
   runEdit s fl pv imagePath prompt
   = mkRun s [] [] []
       (Returns (Some (ExitErr (exitError ExitFileIO
                                  ("input file not found: " +:+ imagePath)))))) ∨
  (ResolveAPIKey s ≠ "" ∧ os_IsNotExist (os_Stat s imagePath) = false ∧
   flagModel fl = "" ∧ (∃ err, Load s = inr err) ∧
   runEdit s fl pv imagePath prompt = mkRun s [] [] [] Panics) ∨
  (ResolveAPIKey s ≠ "" ∧ os_IsNotExist (os_Stat s imagePath) = false ∧
   ∃ model, chosenModel s fl model ∧
     match GenerateWithImage (NewClient (ResolveAPIKey s) model) s
                             (EnrichEditPrompt prompt) imagePath with
     | (_, Some err) =>
         runEdit s fl pv imagePath prompt
         = mkRun s [] (progress fl) [] (Returns (Some (ExitErr (handleAPIError err))))
     | (images, None) =>
         runEdit s fl pv imagePath prompt
         = editLoop s s fl pv imagePath prompt images 0 [] [] (progress fl) []
     end).
Proof.
  unfold runEdit.
  destruct (String.eqb_spec (ResolveAPIKey s) "") as [K|K].
  { left. split; [exact K|]. eexists. reflexivity. }
  right. destruct (os_IsNotExist (os_Stat s imagePath)) eqn:S.
  { left. split; [exact K|]. split; reflexivity. }
  right. destruct (String.eqb_spec (flagModel fl) "") as [M|M].
  - destruct (Load s) as [cfg|e] eqn:L.
    + right. split; [exact K|]. split; [reflexivity|].
      exists (Config_Model cfg). split; [right; eauto|].
      unfold progress.
      destruct (GenerateWithImage _ s _ imagePath) as [images [e|]];
        destruct (flagQuiet fl); reflexivity.
    + left. split; [exact K|]. split; [reflexivity|]. split; [exact M|].
      split; [eauto | reflexivity].
  - right. split; [exact K|]. split; [reflexivity|].
    exists (flagModel fl). split; [left; eauto|].
    unfold progress.
    destruct (GenerateWithImage _ s _ imagePath) as [images [e|]];
      destruct (flagQuiet fl); reflexivity.
Qed.

End EditFacts.

Section EditTheorems.
Context `{Lib} `{OS} `{Env} `{!Host}.

(** X20: an edit whose key, input file, model and request are good and
    whose images are all written ends with the file system of the loop over
    the files, one call of [Preview] per path, in order, under [--preview]
    and none otherwise, whether or not the viewers start, and
    one result per path that carries the path, the command [edit], the
    prompt as the user gave it and the input file. Without [--json] it
    prints one [Saved: ] line per path, nothing under [--quiet], and returns
    [nil]; with [--json] it prints no such line but the document of the
    results, an object for one result and an array otherwise, or returns the
    error of the encoder and prints nothing. *)
Theorem X20_edit_saves (s s' : fs) (fl : Flags) (pv : bool) (imagePath prompt model : string)
    (images : list ImageResult) (paths : list string) :
  ResolveAPIKey s ≠ "" →
  os_IsNotExist (os_Stat s imagePath) = false →
  chosenModel s fl model →
  GenerateWithImage (NewClient (ResolveAPIKey s) model) s
                    (EnrichEditPrompt prompt) imagePath = (images, None) →
  writeImages s images (flagOutput fl) "edit" 0 = (s', (paths, None)) →
  run_fs (runEdit s fl pv imagePath prompt) = s' ∧
  run_stderr (runEdit s fl pv imagePath prompt) = progress fl ∧
  run_previews (runEdit s fl pv imagePath prompt) = (if pv then previewed paths else []) ∧
  ∃ results,
    Forall2 (describes imagePath prompt) results paths ∧
    if flagJSON fl then
      match document results with
      | (_, Some e) =>
          run_stdout (runEdit s fl pv imagePath prompt) = [] ∧
          run_outcome (runEdit s fl pv imagePath prompt) = Returns (Some (PlainErr e))
      | (data, None) =>
          run_stdout (runEdit s fl pv imagePath prompt)
            = [string_of_list_byte data +:+ nl] ∧
          run_outcome (runEdit s fl pv imagePath prompt) = Returns None
      end
    else
      run_stdout (runEdit s fl pv imagePath prompt)
        = (if flagQuiet fl then [] else savedLines paths) ∧
      run_outcome (runEdit s fl pv imagePath prompt) = Returns None.
Proof.
  intros K S M G W.
  destruct (runEdit_cases s fl pv imagePath prompt)
    as [(K' & _) | [(_ & S' & _) | [(_ & _ & N & (e & L) & _) | (_ & _ & m & M' & R)]]];
    [congruence | congruence | |].
  { destruct M as [(N' & _) | (_ & cfg & L' & _)]; congruence. }
  rewrite <- (chosenModel_fun _ _ _ _ M M'), G in R. rewrite R.
  pose proof (editLoop_spec s fl pv imagePath prompt images s 0 [] [] (progress fl) [])
    as (F & E & X).
  rewrite W in F, X. cbn [fst snd] in F, X.
  split; [exact F|]. split; [exact E|].
  destruct X as (results & D & ST & X). split; [exact ST|].
  exists results. split; [exact D|]. exact X.
Qed.

(** X21: when a write fails in such an edit, the command returns the error
    of the loop over the files, with the exit status file-io (10), and
    leaves the file system as the failed call left it. The images before the
    failed one have been written: their [Saved: ] lines have been printed,
    unless [--json] or [--quiet] is set, and [Preview] called for them under
    [--preview]; with [--json] the standard output stays empty although
    files were written. *)
Theorem X21_edit_write_failure (s s' : fs) (fl : Flags) (pv : bool)
    (imagePath prompt model : string) (images : list ImageResult) (paths : list string)
    (e : exitCodeError) :
  ResolveAPIKey s ≠ "" →
  os_IsNotExist (os_Stat s imagePath) = false →
  chosenModel s fl model →
  GenerateWithImage (NewClient (ResolveAPIKey s) model) s
                    (EnrichEditPrompt prompt) imagePath = (images, None) →
  writeImages s images (flagOutput fl) "edit" 0 = (s', (paths, Some e)) →
  run_fs (runEdit s fl pv imagePath prompt) = s' ∧
  run_outcome (runEdit s fl pv imagePath prompt) = Returns (Some (ExitErr e)) ∧
  exitStatus (Some (ExitErr e)) = 10%Z ∧
  run_stderr (runEdit s fl pv imagePath prompt) = progress fl ∧
  ∃ done s1,
    (length done < length images)%nat ∧
    writeImages s (take (length done) images) (flagOutput fl) "edit" 0
      = (s1, (done, None)) ∧
    run_stdout (runEdit s fl pv imagePath prompt)
      = (if flagJSON fl || flagQuiet fl then [] else savedLines done) ∧
    run_previews (runEdit s fl pv imagePath prompt) = (if pv then previewed done else []).
Proof.
  intros K S M G W.
  destruct (runEdit_cases s fl pv imagePath prompt)
    as [(K' & _) | [(_ & S' & _) | [(_ & _ & N & (e' & L) & _) | (_ & _ & m & M' & R)]]];
    [congruence | congruence | |].
  { destruct M as [(N' & _) | (_ & cfg & L' & _)]; congruence. }
  rewrite <- (chosenModel_fun _ _ _ _ M M'), G in R. rewrite R.
  pose proof (editLoop_spec s fl pv imagePath prompt images s 0 [] [] (progress fl) [])
    as (F & E & X).
  pose proof (writeImages_code s images (flagOutput fl) "edit" 0 e) as C.
  rewrite W in F, X, C. cbn [fst snd] in F, X, C.
  destruct X as (O & done & s1 & L & T & SO & ST).
  split; [exact F|]. split; [exact O|]. split; [exact (C eq_refl)|]. split; [exact E|].
  exists done, s1. split; [exact L|]. split; [exact T|]. split; assumption.
Qed.

(** X22: the exit status of an edit that returns is 0, 1, 3, 4, 5 or 10,
    never usage (2), and it is 0 exactly when the command returns [nil]. A
    status of auth (3), rate-limit (4) or api (5) means that nothing
    happened on this side: the file system is as before, nothing was
    printed on the standard output and [Preview] was not called. *)
Theorem X22_edit_exit_status (s : fs) (fl : Flags) (pv : bool) (imagePath prompt : string)
    (err : option cliError) :
  run_outcome (runEdit s fl pv imagePath prompt) = Returns err →
  (exitStatus err = 0 ∨ exitStatus err = 1 ∨ exitStatus err = 3 ∨
   exitStatus err = 4 ∨ exitStatus err = 5 ∨ exitStatus err = 10)%Z ∧
  (exitStatus err = 0%Z ↔ err = None) ∧
  ((exitStatus err = 3 ∨ exitStatus err = 4 ∨ exitStatus err = 5)%Z →
   run_fs (runEdit s fl pv imagePath prompt) = s ∧
   run_stdout (runEdit s fl pv imagePath prompt) = [] ∧
   run_previews (runEdit s fl pv imagePath prompt) = []).
Proof.
  destruct (runEdit_cases s fl pv imagePath prompt)
    as [(_ & msg & R) | [(_ & _ & R) | [(_ & _ & _ & _ & R) | (_ & _ & m & _ & R)]]].
  - rewrite R. cbn. intros [= <-]. cbn. unfold ExitAuth.
    split; [tauto|]. split; [split; [lia | discriminate] | tauto].
  - rewrite R. cbn. intros [= <-]. cbn. unfold ExitFileIO.
    split; [tauto|]. split; [split; [lia | discriminate] | lia].
  - rewrite R. cbn. discriminate.
  - destruct (GenerateWithImage _ s _ imagePath) as [images [e|]] eqn:G.
    + rewrite R. cbn. intros [= <-].
      pose proof (GenerateWithImage_code (NewClient (ResolveAPIKey s) m) s
                    (EnrichEditPrompt prompt) imagePath e) as C.
      rewrite G in C. destruct (C eq_refl) as (_ & C'). cbn.
      split; [tauto|]. split; [split; [lia | discriminate] | tauto].
    + rewrite R.
      pose proof (editLoop_spec s fl pv imagePath prompt images s 0 [] [] (progress fl) [])
        as (F & E & X).
      pose proof (writeImages_code s images (flagOutput fl) "edit" 0) as C.
      destruct (writeImages s images (flagOutput fl) "edit" 0) as [s1 [paths [e|]]];
        cbn [fst snd] in *.
      * destruct X as (O & _). rewrite O. intros [= <-]. cbn.
        rewrite (C e eq_refl). split; [tauto|]. split; [split; [lia | discriminate] | lia].
      * destruct X as (results & _ & _ & X).
        destruct (flagJSON fl).
        -- destruct (document _) as [data [e|]]; destruct X as (_ & O); rewrite O;
             intros [= <-]; cbn.
           ++ split; [tauto|]. split; [split; [lia | discriminate] | lia].
           ++ split; [tauto|]. split; [tauto | lia].
        -- destruct X as (_ & O). rewrite O. intros [= <-]. cbn.
           split; [tauto|]. split; [tauto | lia].
Qed.

(** X23: an edit panics, on a nil [*Config], exactly when the key comes from
    the environment, the input file exists, no [--model] is given and the
    config file does not load; it has then written and printed nothing. In
    every other case it returns. *)
Theorem X23_edit_panics (s : fs) (fl : Flags) (pv : bool) (imagePath prompt : string) :
  (run_outcome (runEdit s fl pv imagePath prompt) = Panics ↔
   os_Getenv EnvAPIKey ≠ "" ∧ os_IsNotExist (os_Stat s imagePath) = false ∧
   flagModel fl = "" ∧ ∃ err, Load s = inr err) ∧
  (run_outcome (runEdit s fl pv imagePath prompt) = Panics →
   runEdit s fl pv imagePath prompt = mkRun s [] [] [] Panics).
Proof.
  assert (KL : ∀ e, Load s = inr e →
                    (ResolveAPIKey s ≠ "" ↔ os_Getenv EnvAPIKey ≠ "")).
  { intros e L. unfold ResolveAPIKey. rewrite L.
    destruct (String.eqb_spec (os_Getenv EnvAPIKey) "") as [->|N]; cbn; tauto. }
  destruct (runEdit_cases s fl pv imagePath prompt)
    as [(K & msg & R) | [(K & S & R) | [(K & S & N & (e & L) & R) | (K & S & m & M & R)]]].
  - rewrite R. cbn. split; [|discriminate]. split; [discriminate|].
    intros (G & _ & _ & e & L). exfalso. now apply (KL e L) in G.
  - rewrite R. cbn. split; [|discriminate]. split; [discriminate|].
    intros (_ & S' & _). congruence.
  - rewrite R. cbn. split; [|reflexivity]. split; [|reflexivity].
    intros _. split; [now apply (KL e L)|]. eauto.
  - assert (O : ∃ err, run_outcome (runEdit s fl pv imagePath prompt) = Returns err).
    { destruct (GenerateWithImage _ s _ imagePath) as [images [e|]];
        rewrite R; [eexists; reflexivity|].
      pose proof (editLoop_spec s fl pv imagePath prompt images s 0 [] [] (progress fl) [])
        as (_ & _ & X).
      destruct (snd (writeImages s images (flagOutput fl) "edit" 0)) as [paths [e|]].
      - destruct X as (-> & _). eauto.
      - destruct X as (results & _ & _ & X). destruct (flagJSON fl).
        + destruct (document _) as [data [e|]]; destruct X as (_ & ->); eauto.
        + destruct X as (_ & ->). eauto. }
    destruct O as (err & ->). split; [|discriminate]. split; [discriminate|].
    intros (_ & _ & N & e & L). exfalso.
    destruct M as [(N' & _) | (_ & cfg & L' & _)]; congruence.
Qed.

(** What [runEdit] itself writes to the two streams. *)
Lemma runEdit_streams (s : fs) (fl : Flags) (pv : bool) (imagePath prompt : string) :
  (run_stderr (runEdit s fl pv imagePath prompt) = [] ∨
   run_stderr (runEdit s fl pv imagePath prompt) = progress fl) ∧
  (flagQuiet fl = true →
   run_stderr (runEdit s fl pv imagePath prompt) = [] ∧
   (flagJSON fl = false → run_stdout (runEdit s fl pv imagePath prompt) = [])) ∧
  (flagJSON fl = true →
   (run_outcome (runEdit s fl pv imagePath prompt) = Returns None ∧
    ∃ data, run_stdout (runEdit s fl pv imagePath prompt)
            = [string_of_list_byte data +:+ nl]) ∨
   (run_outcome (runEdit s fl pv imagePath prompt) ≠ Returns None ∧
    run_stdout (runEdit s fl pv imagePath prompt) = [])).
Proof.
  assert (Q : flagQuiet fl = true → progress fl = []).
  { unfold progress. now intros ->. }
  destruct (runEdit_cases s fl pv imagePath prompt)
    as [(_ & msg & R) | [(_ & _ & R) | [(_ & _ & _ & _ & R) | (_ & _ & m & _ & R)]]].
  1-3: rewrite R; cbn; split; [tauto|]; split; [tauto|]; intros _; right;
       split; [discriminate | reflexivity].
  destruct (GenerateWithImage _ s _ imagePath) as [images [e|]]; rewrite R.
  { cbn. split; [tauto|]. split; [intros q; now rewrite (Q q)|].
    intros _. right. split; [discriminate | reflexivity]. }
  pose proof (editLoop_spec s fl pv imagePath prompt images s 0 [] [] (progress fl) [])
    as (_ & E & X).
  rewrite E. split; [tauto|].
  destruct (snd (writeImages s images (flagOutput fl) "edit" 0)) as [paths [e|]].
  - destruct X as (O & done & s1 & _ & _ & SO & _). rewrite O, SO. cbn [app].
    split.
    + intros q. split; [exact (Q q)|]. intros _. rewrite q, orb_true_r. reflexivity.
    + intros ->. cbn. right. split; [discriminate | reflexivity].
  - destruct X as (results & _ & _ & X). destruct (flagJSON fl).
    + split; [intros q; split; [exact (Q q) | discriminate]|]. intros _.
      destruct (document _) as [data [e|]]; destruct X as (-> & ->).
      * right. split; [discriminate | reflexivity].
      * left. split; [reflexivity|]. exists data. reflexivity.
    + destruct X as (-> & _). split; [|discriminate].
      intros q. split; [exact (Q q)|]. intros _. now rewrite q.
Qed.

(** X24: the streams of an edit that returns, with the line that [main]
    prints for the error returned. With [--quiet] the standard error holds
    nothing when the command returns [nil] and, when it fails, the line of
    its error and nothing else: the command itself writes nothing there,
    and nothing to the standard output unless [--json] is set. Without
    [--quiet] the line of the error comes last, after nothing or the
    progress line. With [--json] the standard output holds one document
    followed by a newline when the command returns [nil], and nothing at all
    when it fails. *)
Theorem X24_edit_streams (s : fs) (fl : Flags) (pv : bool) (imagePath prompt : string)
    (err : option cliError) :
  run_outcome (runEdit s fl pv imagePath prompt) = Returns err →
  (flagQuiet fl = true →
   (run_stderr (runEdit s fl pv imagePath prompt) ++ mainStderr err)%list
   = match err with
     | Some e => [cliError_Error e +:+ nl]
     | None => []
     end ∧
   (flagJSON fl = false → run_stdout (runEdit s fl pv imagePath prompt) = [])) ∧
  (flagQuiet fl = false →
   (run_stderr (runEdit s fl pv imagePath prompt) ++ mainStderr err)%list
   = mainStderr err ∨
   (run_stderr (runEdit s fl pv imagePath prompt) ++ mainStderr err)%list
   = ("Editing image..." +:+ nl) :: mainStderr err) ∧
  (flagJSON fl = true →
   (err = None ∧
    ∃ data, run_stdout (runEdit s fl pv imagePath prompt)
            = [string_of_list_byte data +:+ nl]) ∨
   (err ≠ None ∧ run_stdout (runEdit s fl pv imagePath prompt) = [])).
Proof.
  intros O. destruct (runEdit_streams s fl pv imagePath prompt) as (A & Q & J).
  split; [|split].
  - intros q. destruct (Q q) as (-> & SO). split; [|exact SO].
    destruct err; reflexivity.
  - intros q. unfold progress in A. rewrite q in A.
    destruct A as [-> | ->]; [left | right]; reflexivity.
  - intros j. rewrite O in J.
    destruct (J j) as [([= <-] & D) | (N & SO)]; [left; split; [reflexivity | exact D]|].
    right. split; [congruence | exact SO].
Qed.

(** X25: [--preview] changes nothing but the calls of [Preview]: the file
    system, both streams and the outcome of an edit are the same with and
    without it, whether the viewers start or fail, and without it [Preview]
    is never called. *)
Theorem X25_edit_preview (s : fs) (fl : Flags) (imagePath prompt : string) :
  run_fs (runEdit s fl true imagePath prompt) = run_fs (runEdit s fl false imagePath prompt) ∧
  run_stdout (runEdit s fl true imagePath prompt)
    = run_stdout (runEdit s fl false imagePath prompt) ∧
  run_stderr (runEdit s fl true imagePath prompt)
    = run_stderr (runEdit s fl false imagePath prompt) ∧
  run_outcome (runEdit s fl true imagePath prompt)
    = run_outcome (runEdit s fl false imagePath prompt) ∧
  run_previews (runEdit s fl false imagePath prompt) = [].
Proof.
  unfold runEdit.
  destruct (String.eqb (ResolveAPIKey s) ""); [cbn; tauto|].
  destruct (os_IsNotExist (os_Stat s imagePath)); [cbn; tauto|].
  destruct (if String.eqb (flagModel fl) "" then _ else _) as [model|]; [|cbn; tauto].
  destruct (GenerateWithImage _ s _ imagePath) as [images [e|]]; [cbn; tauto|].
  apply editLoop_preview.
Qed.

End EditTheorems.

Lemma X20_edit_saves_witness :
  run_stdout (@runEdit imagesLib workOS keyEnv (testHost _) onePhoto editFlags true
                       "photo.JPG" "make it blue")
    = ["Saved: /work/out.png" +:+ nl; "Saved: /work/out-2.png" +:+ nl;
       "Saved: /work/out-3.png" +:+ nl] ∧
  run_outcome (@runEdit imagesLib workOS keyEnv (testHost _) onePhoto editFlags true
                        "photo.JPG" "make it blue")
    = Returns None ∧
  run_previews (@runEdit imagesLib workOS keyEnv (testHost _) onePhoto editFlags true
                        "photo.JPG" "make it blue")
    = [("xdg-open", "/work/out.png"); ("xdg-open", "/work/out-2.png");
       ("xdg-open", "/work/out-3.png")].
Proof.
  pose (r := @writeImages workOS onePhoto threeResults "out.png" "edit" 0).
  destruct (@X20_edit_saves imagesLib workOS keyEnv (testHost _) onePhoto (fst r)
              editFlags true "photo.JPG" "make it blue" "test-model" threeResults
              ["/work/out.png"; "/work/out-2.png"; "/work/out-3.png"])
    as (_ & _ & ST & results & _ & SO & O);
    [ intros E; vm_compute in E; discriminate E
    | reflexivity
    | left; split; [discriminate | reflexivity]
    | reflexivity
    | reflexivity
    | ].
  split; [exact SO|]. split; [exact O | exact ST].
Defined.

Lemma X21_edit_write_failure_witness :
  run_outcome (@runEdit imagesLib quotaOS keyEnv (testHost _) onePhoto jsonFlags true
                        "photo.JPG" "make it blue")
    = Returns (Some (ExitErr (exitError 10
        "write image: open out-2.png: no space left on device"))) ∧
  run_stdout (@runEdit imagesLib quotaOS keyEnv (testHost _) onePhoto jsonFlags true
                       "photo.JPG" "make it blue") = [] ∧
  @os_ReadFile quotaOS
     (run_fs (@runEdit imagesLib quotaOS keyEnv (testHost _) onePhoto jsonFlags true
                       "photo.JPG" "make it blue")) "out.png"
    = (bytes "img-a", None).
Proof.
  pose (r := @writeImages quotaOS onePhoto threeResults "out.png" "edit" 0).
  destruct (@X21_edit_write_failure imagesLib quotaOS keyEnv (testHost _) onePhoto (fst r)
              jsonFlags true "photo.JPG" "make it blue" "test-model" threeResults []
              (exitError 10 "write image: open out-2.png: no space left on device"))
    as (F & O & _ & _ & done & s1 & _ & _ & SO & _);
    [ intros E; vm_compute in E; discriminate E
    | reflexivity
    | left; split; [discriminate | reflexivity]
    | reflexivity
    | reflexivity
    | ].
  split; [exact O|]. split; [exact SO|]. rewrite F. reflexivity.
Defined.

Lemma X22_edit_exit_status_witness :
  exitStatus (Some (ExitErr (@handleAPIError
     (ApiErr (@parseAPIError unauthorizedLib 401 (bytes "{...}")))))) = 3%Z ∧
  run_fs (@runEdit unauthorizedLib workOS keyEnv (testHost _) onePhoto editFlags true
                   "photo.JPG" "make it blue") = onePhoto ∧
  run_stdout (@runEdit unauthorizedLib workOS keyEnv (testHost _) onePhoto editFlags true
                       "photo.JPG" "make it blue") = [] ∧
  run_previews (@runEdit unauthorizedLib workOS keyEnv (testHost _) onePhoto editFlags true
                        "photo.JPG" "make it blue") = [].
Proof.
  split; [reflexivity|].
  destruct (@X22_edit_exit_status unauthorizedLib workOS keyEnv (testHost _) onePhoto
              editFlags true "photo.JPG" "make it blue"
              (Some (ExitErr (@handleAPIError
                 (ApiErr (@parseAPIError unauthorizedLib 401 (bytes "{...}"))))))
              eq_refl)
    as (_ & _ & C).
  apply C. left. reflexivity.
Defined.

Lemma X23_edit_panics_witness :
  @runEdit imagesLib workOS keyEnv (testHost _) brokenConfig noFlags false
           "photo.JPG" "make it blue"
  = @mkRun workOS brokenConfig [] [] [] Panics.
Proof.
  destruct (@X23_edit_panics imagesLib workOS keyEnv (testHost _) brokenConfig noFlags false
              "photo.JPG" "make it blue") as (P & Q).
  apply Q, P. split; [discriminate|]. split; [reflexivity|]. split; [reflexivity|].
  exists (LibErr "yaml: unmarshal errors"). reflexivity.
Defined.

Lemma X24_edit_streams_witness :
  (run_stderr (@runEdit unauthorizedLib workOS keyEnv (testHost _) onePhoto quietFlags false
                        "photo.JPG" "make it blue")
   ++ mainStderr (Some (ExitErr (@handleAPIError
        (ApiErr (@parseAPIError unauthorizedLib 401 (bytes "{...}")))))))%list
  = [ "authentication failed: API key not valid" +:+ nl +:+ nl
        +:+ "Set GEMINI_API_KEY or run: naba config set api_key <your-key>" +:+ nl ] ∧
  run_stdout (@runEdit unauthorizedLib workOS keyEnv (testHost _) onePhoto quietFlags false
                       "photo.JPG" "make it blue") = [].
Proof.
  destruct (@X24_edit_streams unauthorizedLib workOS keyEnv (testHost _) onePhoto
              quietFlags false "photo.JPG" "make it blue"
              (Some (ExitErr (@handleAPIError
                 (ApiErr (@parseAPIError unauthorizedLib 401 (bytes "{...}"))))))
              eq_refl)
    as (Q & _).
  destruct (Q eq_refl) as (E & SO). split; [exact E | exact (SO eq_refl)].
Defined.
